(** * Localized Narratives data loader

    A model of [localized_narratives.py]: the registry of annotation
    files, the [LocalizedNarrative] record with its derived recording URL
    and its textual representation, and the [DataLoader] that downloads
    the annotation files and reads them back line by line.

    Python values are rendered as follows.  A [str] is a [string] whose
    characters are code points below 256; an [int] is a [Z]; a [float] is
    a primitive float; a [dict] used as a table is a [gmap]; an exception
    is a constructor of [exn] carried by [result]; a generator is a state
    type with a [next] function that returns what one resumption does. *)

From Stdlib Require Import ZArith String Ascii DecimalString Floats.
From stdpp Require Import gmap strings list fin_maps.

Local Open Scope string_scope.
Local Open Scope Z_scope.
Local Open Scope list_scope.

(** ** Python primitives *)

Module Py.

(** The exceptions the module can raise, by their Python class.
    [DecodeError] stands for whatever [json.loads] or the keyword
    construction of the record raises on a bad line, [DownloadError] for
    whatever [wget.download] raises. *)
Inductive exn : Type :=
| ValueError (msg : string)
| AttributeError
| IndexError
| FileNotFoundError
| FileExistsError
| IsADirectoryError
| DecodeError
| DownloadError.

Inductive result (A : Type) : Type :=
| Ok (a : A)
| Raise (e : exn).
Arguments Ok {A} a.
Arguments Raise {A} e.

Definition bind {A B} (m : result A) (f : A -> result B) : result B :=
  match m with
  | Ok a => f a
  | Raise e => Raise e
  end.

(** What one resumption of a generator ends in. *)
Inductive outcome (Y : Type) : Type :=
| Yielded (y : Y)
| StopIteration
| Raised (e : exn).
Arguments Yielded {Y} y.
Arguments StopIteration {Y}.
Arguments Raised {Y} e.

(** [str(i)] for an int. *)
Definition str_of_int (i : Z) : string :=
  NilZero.string_of_int (Z.to_int i).

(** [c * n] for a one-character string. *)
Fixpoint replicate_char (n : nat) (c : ascii) : string :=
  match n with
  | O => EmptyString
  | S n' => String c (replicate_char n' c)
  end.

(** [s.zfill(width)]: pad with ['0'] on the left up to [width]; a leading
    sign stays in front of the padding. *)
Definition zfill (width : nat) (s : string) : string :=
  let n := String.length s in
  if (width <=? n)%nat then s
  else
    let pad := replicate_char (width - n) "0"%char in
    match s with
    | String c rest =>
        if (Ascii.eqb c "+" || Ascii.eqb c "-")%bool
        then String c (pad +:+ rest)
        else pad +:+ s
    | EmptyString => pad
    end.

(** [f'{i:0{width}d}']: sign-aware zero padding of the decimal form. *)
Definition format_0d (width : nat) (i : Z) : string :=
  zfill width (str_of_int i).

(** [needle in hay] for two strings. *)
Fixpoint contains (needle hay : string) : bool :=
  String.prefix needle hay ||
  match hay with
  | EmptyString => false
  | String _ hay' => contains needle hay'
  end.

(** [s[:n]]. *)
Definition slice_to (n : nat) (s : string) : string :=
  String.substring 0 n s.

(** [range(n)]. *)
Definition range (n : Z) : list Z := seqZ 0 n.

End Py.
Export Py.

(** ** Module constants and the registry of annotation files *)

Definition _ROOT_URL : string :=
  "https://storage.googleapis.com/localized-narratives".
Definition _ANNOTATIONS_ROOT_URL : string := _ROOT_URL +:+ "/annotations".
Definition _RECORDINGS_ROOT_URL : string := _ROOT_URL +:+ "/voice-recordings".

(** The dict literal, entry by entry and in the order it is written. *)
Definition annotation_files_items : list (string * list string) :=
  [ ("open_images_train",
     (fun i => "open_images_train_v6_localized_narratives-" +:+ format_0d 5 i
               +:+ "-of-00010.jsonl") <$> range 10);
    ("open_images_val", ["open_images_validation_localized_narratives.jsonl"]);
    ("open_images_test", ["open_images_test_localized_narratives.jsonl"]);
    ("coco_train",
     (fun i => "coco_train_localized_narratives-" +:+ format_0d 5 i
               +:+ "-of-00004.jsonl") <$> range 4);
    ("coco_val", ["coco_val_localized_narratives.jsonl"]);
    ("flickr30k_train", ["flickr30k_train_localized_narratives.jsonl"]);
    ("flickr30k_val", ["flickr30k_val_localized_narratives.jsonl"]);
    ("flickr30k_test", ["flickr30k_test_localized_narratives.jsonl"]);
    ("ade20k_train", ["ade20k_train_localized_narratives.jsonl"]);
    ("ade20k_val", ["ade20k_validation_localized_narratives.jsonl"]) ].

Definition _ANNOTATION_FILES : gmap string (list string) :=
  list_to_map annotation_files_items.

(** ** The generator [_expected_files]

    Nothing runs when the generator is created.  The first resumption
    looks the key up: an unknown key raises [ValueError] there, a known
    one starts handing out the list, one name per resumption. *)

Inductive ef_state : Type :=
| EF_start (dataset_and_split : string)
| EF_iter (rest : list string)
| EF_done.

Definition unknown_key_error (dataset_and_split : string) : exn :=
  ValueError ("Unknown value for `dataset_and_split`: " +:+ dataset_and_split).

Definition ef_resume (rest : list string) : outcome string * ef_state :=
  match rest with
  | [] => (StopIteration, EF_done)
  | name :: rest' => (Yielded name, EF_iter rest')
  end.

Definition ef_next (st : ef_state) : outcome string * ef_state :=
  match st with
  | EF_start key =>
      match _ANNOTATION_FILES !! key with
      | Some names => ef_resume names
      | None => (Raised (unknown_key_error key), EF_done)
      end
  | EF_iter rest => ef_resume rest
  | EF_done => (StopIteration, EF_done)
  end.

Definition _expected_files (dataset_and_split : string) : ef_state :=
  EF_start dataset_and_split.

(** [list(gen)] for a generator without effects, cut after [fuel]
    resumptions: the values yielded and how the last resumption ended
    ([None] when the fuel ran out first). *)
Fixpoint collect {S Y : Type} (next : S -> outcome Y * S) (fuel : nat) (st : S)
  : list Y * option (outcome Y) :=
  match fuel with
  | O => ([], None)
  | S fuel' =>
      match next st with
      | (Yielded y, st') =>
          let '(ys, fin) := collect next fuel' st' in (y :: ys, fin)
      | (out, _) => ([], Some out)
      end
  end.

(** ** Regular expressions, as [re] matches them

    The fragment of the pattern language that the module uses: single
    characters, the class [\w], character ranges, greedy [+] over one of
    those, numbered groups and concatenation.  Matching is by
    backtracking, in the order [re] tries the alternatives: a greedy [+]
    first takes all it can and gives characters back one at a time, and
    [search] tries the start positions from left to right. *)

Module Re.

Inductive atom : Type :=
| Chr (c : ascii)
| Word
| Range (lo hi : ascii).

Inductive regex : Type :=
| Atom (a : atom)
| Plus (a : atom)
| Group (n : nat) (r : regex)
| Seq (r1 r2 : regex).

Definition code (c : ascii) : N := N_of_ascii c.

Definition between (lo hi : N) (c : ascii) : bool :=
  ((lo <=? code c) && (code c <=? hi))%N.

(** [\w] on a [str]: the alphanumeric code points and the underscore.
    Below 128 these are the digits, the letters and ['_']; from 128 to 255
    they are the letters, superscript digits and fractions of Latin-1. *)
Definition is_word (c : ascii) : bool :=
  between 48 57 c || between 65 90 c || between 95 95 c || between 97 122 c
  || between 170 170 c || between 178 179 c || between 181 181 c
  || between 185 186 c || between 188 190 c || between 192 214 c
  || between 216 246 c || between 248 255 c.

Definition atom_matches (a : atom) (c : ascii) : bool :=
  match a with
  | Chr c' => Ascii.eqb c' c
  | Word => is_word c
  | Range lo hi => between (code lo) (code hi) c
  end.

(** The groups closed so far, the last closed first. *)
Definition captures : Type := list (nat * string).

(** The part of [s] consumed when [rest] is what remains of it. *)
Definition consumed (s rest : string) : string :=
  String.substring 0 (String.length s - String.length rest) s.

Section Matcher.
Context {R : Type}.

(** Zero or more characters of [a], the longest run first. *)
Fixpoint star (a : atom) (k : string -> option R) (s : string) : option R :=
  match s with
  | String c s' =>
      if atom_matches a c then
        match star a k s' with
        | Some r => Some r
        | None => k s
        end
      else k s
  | EmptyString => k s
  end.

Definition plus (a : atom) (k : string -> option R) (s : string) : option R :=
  match s with
  | String c s' => if atom_matches a c then star a k s' else None
  | EmptyString => None
  end.

(** [run r s cs k] matches [r] at the head of [s] and hands what remains,
    with the groups, to the continuation [k]; when [k] fails, the next
    way of matching [r] is tried. *)
Fixpoint run (r : regex) (s : string) (cs : captures)
    (k : string -> captures -> option R) : option R :=
  match r with
  | Atom a =>
      match s with
      | String c s' => if atom_matches a c then k s' cs else None
      | EmptyString => None
      end
  | Plus a => plus a (fun rest => k rest cs) s
  | Group n r' => run r' s cs (fun rest cs' => k rest ((n, consumed s rest) :: cs'))
  | Seq r1 r2 => run r1 s cs (fun rest cs' => run r2 rest cs' k)
  end.

End Matcher.

(** [re.match(r, s)]: the groups of the first successful way. *)
Definition match_at (r : regex) (s : string) : option captures :=
  run r s [] (fun _ cs => Some cs).

(** [re.search(r, s)]: the leftmost start position that matches. *)
Fixpoint search (r : regex) (s : string) : option captures :=
  match match_at r s with
  | Some cs => Some cs
  | None =>
      match s with
      | String _ s' => search r s'
      | EmptyString => None
      end
  end.

(** [m.group(n)]; [None] when the group took no part in the match. *)
Fixpoint group (n : nat) (cs : captures) : option string :=
  match cs with
  | [] => None
  | (n', text) :: cs' => if Nat.eqb n n' then Some text else group n cs'
  end.

(** Concatenation of a non-empty sequence of pieces. *)
Fixpoint cat (r : regex) (rs : list regex) : regex :=
  match rs with
  | [] => r
  | r' :: rs' => Seq r (cat r' rs')
  end.

End Re.

(** ** The records *)

Record TimedPoint : Type := mkTimedPoint
  { x : float; y : float; t : float }.

Record TimedUtterance : Type := mkTimedUtterance
  { utterance : string; start_time : float; end_time : float }.

Record LocalizedNarrative : Type := mkLocalizedNarrative
  { dataset_id : string;
    image_id : string;
    annotator_id : Z;
    caption : string;
    timed_caption : list TimedUtterance;
    traces : list (list TimedPoint);
    voice_recording : string }.

(** The pattern [(\w+)/\w+_([0-9]+)_[0-9]+\.] of [voice_recording_url]. *)
Definition recording_pattern : Re.regex :=
  Re.cat (Re.Group 1 (Re.Plus Re.Word))
    [ Re.Atom (Re.Chr "/"); Re.Plus Re.Word; Re.Atom (Re.Chr "_");
      Re.Group 2 (Re.Plus (Re.Range "0" "9")); Re.Atom (Re.Chr "_");
      Re.Plus (Re.Range "0" "9"); Re.Atom (Re.Chr ".") ].

(** The test ['Flic' in self.dataset_id or 'ADE' in self.dataset_id]. *)
Definition needs_path_fix (self : LocalizedNarrative) : bool :=
  contains "Flic" (dataset_id self) || contains "ADE" (dataset_id self).

(** The property [voice_recording_url].  [re.search] returns [None] when
    the pattern is found nowhere, and [None.groups()] raises
    [AttributeError]; the two groups of a match are unpacked into
    [split_id] and [image_id]. *)
Definition voice_recording_url (self : LocalizedNarrative) : result string :=
  bind
    (if needs_path_fix self then
       match Re.search recording_pattern (voice_recording self) with
       | None => Raise AttributeError
       | Some m =>
           match Re.group 1 m, Re.group 2 m with
           | Some split_id, Some image_id =>
               let image_id := zfill 16 image_id in
               Ok (split_id +:+ "/" +:+ split_id +:+ "_" +:+ image_id +:+ "_"
                   +:+ str_of_int (annotator_id self) +:+ ".ogg")
           | _, _ => Raise AttributeError
           end
       end
     else Ok (voice_recording self))
    (fun voice_recording => Ok (_RECORDINGS_ROOT_URL +:+ "/" +:+ voice_recording)).


(** ** What a pattern matches, stated without the matcher

    [matches r w cs cs'] holds when the word [w] is in the language of
    [r] and matching it turns the groups [cs] into [cs'].  The matcher
    [Re.run] is compared with it below. *)

Module ReLang.
Import Re.

Fixpoint all_match (a : atom) (w : string) : bool :=
  match w with
  | EmptyString => true
  | String c w' => atom_matches a c && all_match a w'
  end.

(** A non-empty run of characters of [a]. *)
Definition run_of (a : atom) (w : string) : Prop :=
  w <> "" /\ all_match a w = true.

Fixpoint matches (r : regex) (w : string) (cs cs' : captures) : Prop :=
  match r with
  | Atom a => (exists c, w = String c "" /\ atom_matches a c = true) /\ cs' = cs
  | Plus a => run_of a w /\ cs' = cs
  | Group n r' => exists cs1, matches r' w cs cs1 /\ cs' = (n, w) :: cs1
  | Seq r1 r2 =>
      exists w1 w2 cs1,
        w = w1 +:+ w2 /\ matches r1 w1 cs cs1 /\ matches r2 w2 cs1 cs'
  end.

End ReLang.

(** The shape [<split>/<text>_<digits>_<digits>.] that the pattern of
    [voice_recording_url] looks for anywhere in the stored path:
    [split_id] and [name] are non-empty runs of [\w], [image_id] and
    [serial] non-empty runs of digits. *)
Definition recording_path_shape (stored split_id image_id : string) : Prop :=
  exists before name serial after : string,
    stored = before +:+ split_id +:+ "/" +:+ name +:+ "_" +:+ image_id
             +:+ "_" +:+ serial +:+ "." +:+ after /\
    ReLang.run_of Re.Word split_id /\
    ReLang.run_of Re.Word name /\
    ReLang.run_of (Re.Range "0" "9") image_id /\
    ReLang.run_of (Re.Range "0" "9") serial.

(** The stored path has the shape for some split and image id. *)
Definition well_formed_recording_path (stored : string) : Prop :=
  exists split_id image_id : string, recording_path_shape stored split_id image_id.

(** The shape in the words of the specification,
    [<split>/<text>_<digits>_<text>.<ext>]: as above, but the component
    after the digits is any non-empty run of [\w], and anything may come
    before the split and after the dot. *)
Definition described_recording_path (stored : string) : Prop :=
  exists before split_id name image_id text ext : string,
    stored = before +:+ split_id +:+ "/" +:+ name +:+ "_" +:+ image_id
             +:+ "_" +:+ text +:+ "." +:+ ext /\
    ReLang.run_of Re.Word split_id /\
    ReLang.run_of Re.Word name /\
    ReLang.run_of (Re.Range "0" "9") image_id /\
    ReLang.run_of Re.Word text.

(** ** The textual representation *)

(** [l[0]]. *)
Definition item0 {A : Type} (l : list A) : result A :=
  match l with
  | [] => Raise IndexError
  | a :: _ => Ok a
  end.

Definition nl : string := String "010"%char "".

Section Repr.
(** [__str__] of the elements of [timed_caption] and of the points of a
    trace, as Python renders them. *)
Variable str_utterance : TimedUtterance -> string.
Variable str_point : TimedPoint -> string.

Definition __repr__ (self : LocalizedNarrative) : result string :=
  let truncated_caption :=
    if (63 <? String.length (caption self))%nat
    then slice_to 60 (caption self) +:+ "..."
    else caption self in
  bind (item0 (timed_caption self)) (fun first_utterance =>
  let truncated_timed_caption := str_utterance first_utterance in
  bind (item0 (traces self)) (fun first_trace =>
  bind (item0 first_trace) (fun first_point =>
  let truncated_traces := str_point first_point in
  Ok ("{" +:+ nl
      +:+ " dataset_id: " +:+ dataset_id self +:+ "," +:+ nl
      +:+ " image_id: " +:+ image_id self +:+ "," +:+ nl
      +:+ " annotator_id: " +:+ str_of_int (annotator_id self) +:+ "," +:+ nl
      +:+ " caption: " +:+ truncated_caption +:+ "," +:+ nl
      +:+ " timed_caption: [" +:+ truncated_timed_caption +:+ ", ...]," +:+ nl
      +:+ " traces: [[" +:+ truncated_traces +:+ ", ...], ...]," +:+ nl
      +:+ " voice_recording: " +:+ voice_recording self +:+ nl
      +:+ "}")))).

End Repr.

(** ** The operating system, as far as the loader uses it

    The file system is a table from paths to nodes.  Paths are opaque
    keys: parent directories are not tracked.  A regular file is the list
    of its lines.  What the loader does to the outside is recorded as a
    list of events. *)

Inductive node : Type :=
| File (lines : list string)
| Dir.

Inductive event : Type :=
| EvMakedirs (path : string)
| EvExists (path : string) (found : bool)
| EvOpen (path : string)
| EvReadLine (path : string) (line : string)
| EvEOF (path : string)
| EvClose (path : string)
| EvDownload (url path : string)
| EvPrint (text : string).

Module Os.

Fixpoint endswith_char (c : ascii) (s : string) : bool :=
  match s with
  | EmptyString => false
  | String c' EmptyString => Ascii.eqb c' c
  | String _ s' => endswith_char c s'
  end.

(** [os.path.join(a, b)] of [posixpath]. *)
Definition path_join (a b : string) : string :=
  if String.prefix "/" b then b
  else if (String.eqb a "" || endswith_char "/" a)%bool then a +:+ b
  else a +:+ "/" +:+ b.

(** [os.path.exists(path)]. *)
Definition path_exists (fs : gmap string node) (path : string) : bool :=
  match fs !! path with
  | Some _ => true
  | None => false
  end.

(** [os.makedirs(path, exist_ok=True)]: an existing directory is left as
    it is, an existing file is an error, and so is the empty path. *)
Definition makedirs (fs : gmap string node) (path : string)
  : result (gmap string node) :=
  if String.eqb path "" then Raise FileNotFoundError
  else
    match fs !! path with
    | Some Dir => Ok fs
    | Some (File _) => Raise FileExistsError
    | None => Ok (<[path := Dir]> fs)
    end.

(** [open(path, 'rb')]: the lines still to be read. *)
Definition open_rb (fs : gmap string node) (path : string)
  : result (list string) :=
  match fs !! path with
  | Some (File lines) => Ok lines
  | Some Dir => Raise IsADirectoryError
  | None => Raise FileNotFoundError
  end.

(** [wget.download(url, out)] towards a path that does not exist: the
    remote content, when the server has it, becomes the file at [out];
    anything else is an error. *)
Definition wget_download (remote : gmap string (list string))
    (url out : string) (fs : gmap string node) : result (gmap string node) :=
  match remote !! url with
  | Some content => Ok (<[out := File content]> fs)
  | None => Raise DownloadError
  end.

End Os.

(** ** The data loader *)

Record DataLoader : Type := mkDataLoader
  { _local_root_dir : string }.

Definition _local_file (self : DataLoader) (filename : string) : string :=
  Os.path_join (_local_root_dir self) filename.

(** What [for filename in _expected_files(key)] is going to iterate over,
    from the state the generator is in: the names still to come, or the
    error of the first resumption. *)
Definition ef_rest (st : ef_state) : result (list string) :=
  match st with
  | EF_start key =>
      match _ANNOTATION_FILES !! key with
      | Some names => Ok names
      | None => Raise (unknown_key_error key)
      end
  | EF_iter rest => Ok rest
  | EF_done => Ok []
  end.

(** Events in front of what a computation does next. *)
Definition after {A B : Type} (evs : list event) (r : list event * A * B)
  : list event * A * B :=
  let '(evs', a, b) := r in ((evs ++ evs')%list, a, b).

(** *** The generator [_find_files]

    Its state is the state of the [_expected_files] generator it loops
    over.  One resumption checks the names one after the other until a
    local file exists, and yields its path. *)

Inductive ff_state : Type :=
| FF (inner : ef_state).

Definition _find_files (self : DataLoader) (dataset_and_split : string)
  : ff_state :=
  FF (_expected_files dataset_and_split).

Section FindFiles.
Variable fs : gmap string node.
Variable self : DataLoader.

Fixpoint ff_scan (names : list string)
  : list event * outcome string * ff_state :=
  match names with
  | [] => ([], StopIteration, FF EF_done)
  | filename :: rest =>
      let path := _local_file self filename in
      if Os.path_exists fs path
      then ([EvExists path true], Yielded path, FF (EF_iter rest))
      else after [EvExists path false] (ff_scan rest)
  end.

Definition ff_next (st : ff_state)
  : list event * outcome string * ff_state :=
  let 'FF inner := st in
  match ef_rest inner with
  | Ok names => ff_scan names
  | Raise e => ([], Raised e, FF EF_done)
  end.

End FindFiles.

(** *** The generator [load_annotations]

    [LA_yielded] is the generator suspended at its [yield]: the counter,
    the limit, the suspended [_find_files] generator, and the open file
    with the lines not yet read.  The file object is the one bound to
    [self._current_open_file]: one generator of a loader is driven at a
    time. *)

Inductive la_state : Type :=
| LA_start (dataset_and_split : string) (max_num_annotations : Z)
| LA_yielded (num_loaded max_num_annotations : Z) (files : ff_state)
    (path : string) (lines : list string)
| LA_done.

(** [int(1e30)], the default of [max_num_annotations]. *)
Definition default_max_num_annotations : Z :=
  1000000000000000019884624838656.

Definition load_annotations (dataset_and_split : string)
    (max_num_annotations : Z) : la_state :=
  LA_start dataset_and_split max_num_annotations.

Section LoadAnnotations.
(** The record built from the keys of [json.loads(line)], or the
    exception that [json.loads] or the construction raises. *)
Variable decode : string -> result LocalizedNarrative.
Variable fs : gmap string node.
Variable self : DataLoader.

Section Loop.
Variable max_num_annotations : Z.

(** The inner loop [for line in self._current_open_file], entered or
    resumed with [lines] left in the file; [next_file] is what the outer
    loop does once the file is exhausted and closed. *)
Definition la_lines (next_file : list event * outcome LocalizedNarrative * la_state)
    (num_loaded : Z) (files : ff_state) (path : string) (lines : list string)
  : list event * outcome LocalizedNarrative * la_state :=
  match lines with
  | [] => after [EvEOF path; EvClose path] next_file
  | line :: lines' =>
      match decode line with
      | Ok narrative =>
          ([EvReadLine path line], Yielded narrative,
           LA_yielded num_loaded max_num_annotations files path lines')
      | Raise e => ([EvReadLine path line], Raised e, LA_done)
      end
  end.

(** The outer loop [for local_file in self._find_files(...)], with
    [names] still to come from [_expected_files]. *)
Fixpoint la_files (num_loaded : Z) (names : list string)
  : list event * outcome LocalizedNarrative * la_state :=
  match names with
  | [] => ([], StopIteration, LA_done)
  | filename :: rest =>
      let path := _local_file self filename in
      if Os.path_exists fs path then
        after [EvExists path true; EvOpen path]
          match Os.open_rb fs path with
          | Ok lines =>
              la_lines (la_files num_loaded rest) num_loaded
                (FF (EF_iter rest)) path lines
          | Raise e => ([], Raised e, LA_done)
          end
      else after [EvExists path false] (la_files num_loaded rest)
  end.

End Loop.

Definition la_enter (max_num_annotations num_loaded : Z) (files : ff_state)
  : list event * outcome LocalizedNarrative * la_state :=
  let 'FF inner := files in
  match ef_rest inner with
  | Ok names => la_files max_num_annotations num_loaded names
  | Raise e => ([], Raised e, LA_done)
  end.

(** One resumption of the generator. *)
Definition la_next (st : la_state)
  : list event * outcome LocalizedNarrative * la_state :=
  match st with
  | LA_start key max_num_annotations =>
      let num_loaded := 0 in
      la_enter max_num_annotations num_loaded (_find_files self key)
  | LA_yielded num_loaded max_num_annotations files path lines =>
      let num_loaded := num_loaded + 1 in
      if num_loaded =? max_num_annotations
      then ([EvClose path], StopIteration, LA_done)
      else la_lines max_num_annotations
             (la_enter max_num_annotations num_loaded files)
             num_loaded files path lines
  | LA_done => ([], StopIteration, LA_done)
  end.

(** The generator driven for at most [fuel] resumptions: the events, the
    records yielded, how it ended ([None] while it is still suspended,
    [Some None] for a normal end, [Some (Some e)] for an exception) and
    the state it is left in. *)
Record la_run : Type := mkRun
  { run_trace : list event;
    run_yielded : list LocalizedNarrative;
    run_end : option (option exn);
    run_state : la_state }.

Fixpoint la_drive (fuel : nat) (st : la_state) : la_run :=
  match fuel with
  | O => mkRun [] [] None st
  | S fuel' =>
      match la_next st with
      | (evs, Yielded narrative, st') =>
          let r := la_drive fuel' st' in
          mkRun (evs ++ run_trace r)%list (narrative :: run_yielded r)
                (run_end r) (run_state r)
      | (evs, StopIteration, st') => mkRun evs [] (Some None) st'
      | (evs, Raised e, st') => mkRun evs [] (Some (Some e)) st'
      end
  end.

End LoadAnnotations.

(** *** [download_annotations] *)

Section Download.
Variable remote : gmap string (list string).
Variable self : DataLoader.

Definition _download_one_file (fs : gmap string node) (filename : string)
  : list event * result unit * gmap string node :=
  let path := _local_file self filename in
  if negb (Os.path_exists fs path) then
    let url := _ANNOTATIONS_ROOT_URL +:+ "/" +:+ filename in
    match Os.wget_download remote url path fs with
    | Ok fs' =>
        ([EvExists path false; EvPrint ("Downloading: " +:+ filename);
          EvDownload url path; EvPrint ""], Ok tt, fs')
    | Raise e =>
        ([EvExists path false; EvPrint ("Downloading: " +:+ filename);
          EvDownload url path], Raise e, fs)
    end
  else
    ([EvExists path true; EvPrint ("Already downloaded: " +:+ filename)],
     Ok tt, fs).

(** The loop [for filename in ...: self._download_one_file(filename)]. *)
Fixpoint download_files (fs : gmap string node) (names : list string)
  : list event * result unit * gmap string node :=
  match names with
  | [] => ([], Ok tt, fs)
  | filename :: rest =>
      match _download_one_file fs filename with
      | (evs, Ok _, fs') => after evs (download_files fs' rest)
      | (evs, Raise e, fs') => (evs, Raise e, fs')
      end
  end.

Definition download_annotations (fs : gmap string node)
    (dataset_and_split : string)
  : list event * result unit * gmap string node :=
  match Os.makedirs fs (_local_root_dir self) with
  | Raise e => ([EvMakedirs (_local_root_dir self)], Raise e, fs)
  | Ok fs' =>
      after [EvMakedirs (_local_root_dir self)]
        match ef_rest (_expected_files dataset_and_split) with
        | Ok names => download_files fs' names
        | Raise e => ([], Raise e, fs')
        end
  end.

End Download.

(** ** Vocabulary for the properties of the loader *)

Section LoaderVocabulary.
Variable decode : string -> result LocalizedNarrative.
Variable fs : gmap string node.
Variable self : DataLoader.

(** The lines of the regular file at [path]; none when there is no such
    file. *)
Definition file_lines (path : string) : list string :=
  match fs !! path with
  | Some (File lines) => lines
  | _ => []
  end.

(** The lines of the present files among [names], file after file in the
    order of [names] and line after line within a file. *)
Definition present_lines (names : list string) : list string :=
  List.concat ((fun filename => file_lines (_local_file self filename)) <$> names).

(** No expected name is taken locally by a directory. *)
Definition regular_files (names : list string) : Prop :=
  Forall (fun filename => fs !! _local_file self filename <> Some Dir) names.

Definition decodable (line : string) : Prop :=
  exists narrative, decode line = Ok narrative.

(** The records of the lines that decode. *)
Definition decoded (lines : list string) : list LocalizedNarrative :=
  omap (fun line => match decode line with
                    | Ok narrative => Some narrative
                    | Raise _ => None
                    end) lines.

(** The lines read, and the paths opened, in a list of events. *)
Definition read_lines (evs : list event) : list string :=
  omap (fun ev => match ev with EvReadLine _ line => Some line | _ => None end) evs.

Definition opened (evs : list event) : list string :=
  omap (fun ev => match ev with EvOpen path => Some path | _ => None end) evs.

Definition downloads (evs : list event) : list string :=
  omap (fun ev => match ev with EvDownload url _ => Some url | _ => None end) evs.

(** The lines a suspended generator has in front of it. *)
Definition la_pending (st : la_state) : list string :=
  match st with
  | LA_start key _ =>
      match ef_rest (_expected_files key) with
      | Ok names => present_lines names
      | Raise _ => []
      end
  | LA_yielded _ _ (FF inner) _ lines =>
      lines ++ match ef_rest inner with
               | Ok names => present_lines names
               | Raise _ => []
               end
  | LA_done => []
  end.

(** How many more records the limit lets through, [None] when the
    equality test of the limit can no longer succeed.  A generator that
    has not started has yielded nothing and tests nothing before its
    first record. *)
Definition allowance (st : la_state) : option nat :=
  match st with
  | LA_start _ max_num_annotations =>
      if 0 <? max_num_annotations then Some (Z.to_nat max_num_annotations)
      else None
  | LA_yielded num_loaded max_num_annotations _ _ _ =>
      let yielded := num_loaded + 1 in
      if yielded <? max_num_annotations
      then Some (Z.to_nat (max_num_annotations - yielded))
      else if yielded =? max_num_annotations then Some O
      else None
  | LA_done => None
  end.

Definition within {A : Type} (allowed : option nat) (l : list A) : list A :=
  match allowed with
  | Some n => take n l
  | None => l
  end.

(** A state whose files to come are known and regular. *)
Definition la_regular (st : la_state) : Prop :=
  match st with
  | LA_start key _ =>
      exists names, _ANNOTATION_FILES !! key = Some names /\ regular_files names
  | LA_yielded _ _ (FF inner) _ _ =>
      exists names, inner = EF_iter names /\ regular_files names
  | LA_done => True
  end.

(** What a resumption does with the lines in front of it, once the
    limit has let it through: nothing left ends the generator without a
    read; otherwise the first line is read, and only that one, and its
    record is yielded. *)
Definition reads_first (num max : Z) (pending : list string)
    (step : list event * outcome LocalizedNarrative * la_state) : Prop :=
  match pending with
  | [] => exists evs, step = (evs, StopIteration, LA_done) /\ read_lines evs = []
  | line :: pending' =>
      exists evs, read_lines evs = [line] /\
        match decode line with
        | Ok narrative =>
            exists files path lines,
              step = (evs, Yielded narrative,
                      LA_yielded num max files path lines) /\
              la_regular (LA_yielded num max files path lines) /\
              la_pending (LA_yielded num max files path lines) = pending'
        | Raise e => step = (evs, Raised e, LA_done)
        end
  end.

(** The allowance after [n] more records. *)
Definition spend (n : nat) (allowed : option nat) : option nat :=
  match allowed with
  | Some a => Some (a - n)%nat
  | None => None
  end.

(** Every path opened by a resumption exists. *)
Definition opens_present
    (step : list event * outcome LocalizedNarrative * la_state) : Prop :=
  Forall (fun path => Os.path_exists fs path = true) (opened step.1.1).

End LoaderVocabulary.

(** ** A sample local directory

    Two of the four shards of [coco_train] are present under [data]; a
    line decodes to a record that carries it as its caption, except the
    empty line, which does not decode. *)

Definition sample_decode (line : string) : result LocalizedNarrative :=
  if String.eqb line "" then Raise DecodeError
  else Ok {| dataset_id := "mscoco_train2017"; image_id := "1";
             annotator_id := 0; caption := line; timed_caption := [];
             traces := []; voice_recording := "" |}.

Definition sample_loader : DataLoader := mkDataLoader "data".

Definition sample_fs : gmap string node :=
  <["data" := Dir]>
  (<["data/coco_train_localized_narratives-00001-of-00004.jsonl" :=
       File ["first"; "second"]]>
  (<["data/coco_train_localized_narratives-00003-of-00004.jsonl" :=
       File ["third"]]> ∅)).

Definition sample_names : list string :=
  [ "coco_train_localized_narratives-00000-of-00004.jsonl";
    "coco_train_localized_narratives-00001-of-00004.jsonl";
    "coco_train_localized_narratives-00002-of-00004.jsonl";
    "coco_train_localized_narratives-00003-of-00004.jsonl" ].

(** A server that holds the one file of [coco_val], and the local
    directory after it has been downloaded. *)
Definition sample_remote : gmap string (list string) :=
  {[ _ANNOTATIONS_ROOT_URL +:+ "/coco_val_localized_narratives.jsonl"
     := ["one"; "two"] ]}.

Definition sample_downloaded : gmap string node :=
  <["data/coco_val_localized_narratives.jsonl" := File ["one"; "two"]]>
  (<["data" := Dir]> ∅).

(** ** Further vocabulary *)

(** The local [truncated_caption] of [__repr__]. *)
Definition truncated_caption (caption : string) : string :=
  if (63 <? String.length caption)%nat
  then slice_to 60 caption +:+ "..."
  else caption.

(** The paths closed, and the paths whose existence is checked, in a
    list of events. *)
Definition closed (evs : list event) : list string :=
  omap (fun ev => match ev with EvClose path => Some path | _ => None end) evs.

Definition checked (evs : list event) : list string :=
  omap (fun ev => match ev with EvExists path _ => Some path | _ => None end) evs.

(** The events of reading the local directory. *)
Definition local_read (ev : event) : bool :=
  match ev with
  | EvExists _ _ | EvOpen _ | EvReadLine _ _ | EvEOF _ | EvClose _ => true
  | EvMakedirs _ | EvDownload _ _ | EvPrint _ => false
  end.

(** The names a generator of [load_annotations] still has to look at,
    the file it holds open, the records it has yielded and its limit. *)
Definition la_names (st : la_state) : list string :=
  match st with
  | LA_start key _ =>
      match ef_rest (_expected_files key) with
      | Ok names => names
      | Raise _ => []
      end
  | LA_yielded _ _ (FF inner) _ _ =>
      match ef_rest inner with
      | Ok names => names
      | Raise _ => []
      end
  | LA_done => []
  end.

Definition la_held (st : la_state) : list string :=
  match st with
  | LA_yielded _ _ _ path _ => [path]
  | _ => []
  end.

Definition la_count (st : la_state) : Z :=
  match st with
  | LA_yielded num_loaded _ _ _ _ => num_loaded + 1
  | _ => 0
  end.

Definition la_max (st : la_state) : Z :=
  match st with
  | LA_start _ max_num_annotations => max_num_annotations
  | LA_yielded _ max_num_annotations _ _ _ => max_num_annotations
  | LA_done => 0
  end.

(** What a resumption keeps, when it starts with [names] to look at and
    the files [held] open: it only reads the local directory; it checks
    names in order; when it yields it holds exactly one file open, when
    it ends it holds none, and when it raises at most one, none unless a
    line or an opening is what failed. *)
Definition step_ok (self : DataLoader) (names held : list string)
    (num max : Z)
    (step : list event * outcome LocalizedNarrative * la_state) : Prop :=
  let '(evs, out, st') := step in
  Forall (fun ev => local_read ev = true) evs /\
  match out with
  | Yielded _ =>
      exists files path lines,
        st' = LA_yielded num max files path lines /\
        held ++ opened evs = closed evs ++ [path] /\
        checked evs ++ (_local_file self <$> la_names st')
        = _local_file self <$> names
  | StopIteration =>
      st' = LA_done /\
      held ++ opened evs = closed evs /\
      checked evs `prefix_of` (_local_file self <$> names)
  | Raised _ =>
      st' = LA_done /\
      checked evs `prefix_of` (_local_file self <$> names) /\
      exists leak,
        held ++ opened evs = closed evs ++ leak /\
        (length leak <= 1)%nat /\
        (leak = [] -> read_lines evs = [])
  end.

(** [list(gen)] for [_find_files], cut after [fuel] resumptions, with
    the events. *)
Fixpoint ff_drive (fs : gmap string node) (self : DataLoader) (fuel : nat)
    (st : ff_state) : list event * list string * option (option exn) :=
  match fuel with
  | O => ([], [], None)
  | S fuel' =>
      match ff_next fs self st with
      | (evs, Yielded path, st') =>
          let '(evs', paths, fin) := ff_drive fs self fuel' st' in
          (evs ++ evs', path :: paths, fin)
      | (evs, StopIteration, _) => (evs, [], Some None)
      | (evs, Raised e, _) => (evs, [], Some (Some e))
      end
  end.

(** The URL [_download_one_file] fetches a file from. *)
Definition annotation_url (filename : string) : string :=
  _ANNOTATIONS_ROOT_URL +:+ "/" +:+ filename.

(** A file name that [os.path.join] puts under the directory: not empty
    and not absolute. *)
Definition relative_name (filename : string) : bool :=
  negb (String.prefix "/" filename) && negb (String.eqb filename "").

(** What a successful download leaves at the local path of [filename]:
    what was there, or else the content the server holds. *)
Definition downloaded_node (remote : gmap string (list string))
    (fs : gmap string node) (self : DataLoader) (filename : string)
  : option node :=
  match fs !! _local_file self filename with
  | Some present => Some present
  | None => File <$> remote !! annotation_url filename
  end.

(** The expected files that are absent locally, in order. *)
Definition missing_files (fs : gmap string node) (self : DataLoader)
    (names : list string) : list string :=
  List.filter (fun filename =>
                 negb (Os.path_exists fs (_local_file self filename))) names.

(** The lines the server holds for [names], file after file. *)
Definition served (remote : gmap string (list string)) (names : list string)
  : list string :=
  List.concat ((fun filename => default [] (remote !! annotation_url filename))
                 <$> names).

(** ** The demo script

    [demo.py]: download the annotations of [flickr30k_test], take the
    first record of [load_annotations('flickr30k_test', 1)] with [next],
    print it, print its recording URL.  [next] on a generator that has
    nothing to yield raises [StopIteration], which is not an exception
    of the loader and gets an end of its own. *)

Inductive script_end : Type :=
| Completed
| StopIterationRaised
| Failed (e : exn).

Definition demo_local_dir : string :=
  "/usr/local/google/home/jponttuset/datasets/LocalizedNarratives".

Section Demo.
Variable str_utterance : TimedUtterance -> string.
Variable str_point : TimedPoint -> string.
Variable decode : string -> result LocalizedNarrative.
Variable remote : gmap string (list string).

Definition demo (fs : gmap string node)
  : list event * script_end * gmap string node :=
  let data_loader := mkDataLoader demo_local_dir in
  match download_annotations remote data_loader fs "flickr30k_test" with
  | (evs, Raise e, fs') => (evs, Failed e, fs')
  | (evs, Ok _, fs') =>
      match la_next decode fs' data_loader
              (load_annotations "flickr30k_test" 1) with
      | (evs_next, StopIteration, _) =>
          (evs ++ evs_next, StopIterationRaised, fs')
      | (evs_next, Raised e, _) => (evs ++ evs_next, Failed e, fs')
      | (evs_next, Yielded loc_narr, _) =>
          match __repr__ str_utterance str_point loc_narr with
          | Raise e => (evs ++ evs_next, Failed e, fs')
          | Ok text =>
              let sample :=
                EvPrint (nl +:+ "Localized Narrative sample:" +:+ nl +:+ text) in
              match voice_recording_url loc_narr with
              | Raise e => (evs ++ evs_next ++ [sample], Failed e, fs')
              | Ok url =>
                  (evs ++ evs_next
                   ++ [sample;
                       EvPrint (nl +:+ "Voice recording URL:" +:+ nl +:+ " "
                                +:+ url +:+ nl)],
                   Completed, fs')
              end
          end
      end
  end.

End Demo.

(** The events of fetching: creating the directory, checking for a
    file, downloading, printing. *)
Definition fetch_event (ev : event) : bool :=
  match ev with
  | EvMakedirs _ | EvExists _ _ | EvDownload _ _ | EvPrint _ => true
  | EvOpen _ | EvReadLine _ _ | EvEOF _ | EvClose _ => false
  end.

(** A server and a decoder for the demo: one file of two lines, each
    decoding to a record with one utterance and one point. *)
Definition demo_remote : gmap string (list string) :=
  {[ annotation_url "flickr30k_test_localized_narratives.jsonl"
     := ["first"; "second"] ]}.

Definition demo_decode (line : string) : result LocalizedNarrative :=
  if String.eqb line "" then Raise DecodeError
  else Ok {| dataset_id := "Flick30k"; image_id := "1234"; annotator_id := 7;
             caption := line;
             timed_caption := [mkTimedUtterance line 0 1];
             traces := [[mkTimedPoint 0 0 0]];
             voice_recording :=
               "test/flickr30k_test_0000000000001234_7.ogg" |}.
(** * Properties *)

Lemma collect_ef_iter (rest : list string) (fuel : nat) :
  (length rest < fuel)%nat ->
  collect ef_next fuel (EF_iter rest) = (rest, Some StopIteration).
Proof.
  revert fuel. induction rest as [|name rest IH]; intros [|fuel] Hlt;
    simpl in *; try lia; try reflexivity.
  rewrite IH by lia. reflexivity.
Qed.

Lemma collect_ef_start (key : string) (names : list string) (fuel : nat) :
  _ANNOTATION_FILES !! key = Some names ->
  (length names < fuel)%nat ->
  collect ef_next fuel (_expected_files key) = (names, Some StopIteration).
Proof.
  intros Hkey Hlt. destruct fuel as [|fuel]; [lia|].
  simpl. rewrite Hkey. destruct names as [|name names]; [reflexivity|].
  simpl. rewrite collect_ef_iter by (simpl in Hlt; lia). reflexivity.
Qed.

Lemma annotation_files_lookup (key : string) (names : list string) :
  _ANNOTATION_FILES !! key = Some names <->
  (key, names) ∈ annotation_files_items.
Proof.
  unfold _ANNOTATION_FILES. symmetry. apply elem_of_list_to_map.
  apply (bool_decide_unpack _). vm_compute. reflexivity.
Qed.

(** C5: for a key of the registry, [_expected_files] hands out a non-empty
    list of names, the list the registry holds for the key, and then stops;
    it is a function of the key alone, with no state and no effect. *)
Theorem expected_files_known_key (key : string) :
  key ∈ dom _ANNOTATION_FILES ->
  exists names : list string,
    names <> [] /\
    _ANNOTATION_FILES !! key = Some names /\
    forall fuel : nat, (length names < fuel)%nat ->
      collect ef_next fuel (_expected_files key) = (names, Some StopIteration).
Proof.
  intros Hdom. apply elem_of_dom in Hdom as [names Hnames].
  exists names. split; [|split; [exact Hnames|]].
  - apply annotation_files_lookup in Hnames.
    unfold annotation_files_items in Hnames.
    repeat (apply elem_of_cons in Hnames as [Hnames|Hnames];
            [injection Hnames as _ ->; discriminate|]).
    apply elem_of_nil in Hnames. contradiction.
  - intros fuel Hfuel. apply collect_ef_start; assumption.
Qed.

Lemma expected_files_known_key_witness :
  exists names : list string,
    names <> [] /\
    _ANNOTATION_FILES !! "coco_train" = Some names /\
    forall fuel : nat, (length names < fuel)%nat ->
      collect ef_next fuel (_expected_files "coco_train")
      = (names, Some StopIteration).
Proof.
  apply (expected_files_known_key "coco_train").
  apply elem_of_dom. eexists. vm_compute. reflexivity.
Defined.


Example coco_train_files :
  _ANNOTATION_FILES !! "coco_train" = Some sample_names.
Proof. reflexivity. Qed.

Example open_images_train_files :
  _ANNOTATION_FILES !! "open_images_train"
  = Some [ "open_images_train_v6_localized_narratives-00000-of-00010.jsonl";
           "open_images_train_v6_localized_narratives-00001-of-00010.jsonl";
           "open_images_train_v6_localized_narratives-00002-of-00010.jsonl";
           "open_images_train_v6_localized_narratives-00003-of-00010.jsonl";
           "open_images_train_v6_localized_narratives-00004-of-00010.jsonl";
           "open_images_train_v6_localized_narratives-00005-of-00010.jsonl";
           "open_images_train_v6_localized_narratives-00006-of-00010.jsonl";
           "open_images_train_v6_localized_narratives-00007-of-00010.jsonl";
           "open_images_train_v6_localized_narratives-00008-of-00010.jsonl";
           "open_images_train_v6_localized_narratives-00009-of-00010.jsonl" ].
Proof. reflexivity. Qed.

Example zfill_examples :
  zfill 5 "abc" = "00abc" /\ zfill 5 "-12" = "-0012" /\ zfill 2 "abc" = "abc"
  /\ zfill 16 "000137576" = "0000000000137576".
Proof. repeat split; reflexivity. Qed.

(** ** The matcher against the language of a pattern *)

Module ReFacts.
Import Re ReLang.

Lemma append_cons (c : ascii) (s1 s2 : string) :
  String c s1 +:+ s2 = String c (s1 +:+ s2).
Proof. reflexivity. Qed.

Lemma append_nil_l (s : string) : "" +:+ s = s.
Proof. reflexivity. Qed.

Lemma append_assoc (s1 s2 s3 : string) :
  (s1 +:+ s2) +:+ s3 = s1 +:+ (s2 +:+ s3).
Proof.
  induction s1 as [|c s1 IH]; [reflexivity|].
  rewrite !append_cons, IH. reflexivity.
Qed.

Lemma length_append (s1 s2 : string) :
  String.length (s1 +:+ s2) = (String.length s1 + String.length s2)%nat.
Proof.
  induction s1 as [|c s1 IH]; [reflexivity|].
  rewrite append_cons. simpl. rewrite IH. reflexivity.
Qed.

Lemma substring_prefix (w rest : string) :
  String.substring 0 (String.length w) (w +:+ rest) = w.
Proof.
  induction w as [|c w IH].
  - destruct rest; reflexivity.
  - rewrite append_cons. simpl. rewrite IH. reflexivity.
Qed.

Lemma consumed_append (w rest : string) : consumed (w +:+ rest) rest = w.
Proof.
  unfold consumed. rewrite length_append.
  replace (String.length w + String.length rest - String.length rest)%nat
    with (String.length w) by lia.
  apply substring_prefix.
Qed.

Section Continuations.
Context {R : Type}.

Lemma star_sound (a : atom) (k : string -> option R) (s : string) (res : R) :
  star a k s = Some res ->
  exists w rest, s = w +:+ rest /\ all_match a w = true /\ k rest = Some res.
Proof.
  induction s as [|c s IH]; simpl; intros Hrun.
  - exists "", "". auto.
  - destruct (atom_matches a c) eqn:Hc.
    + destruct (star a k s) as [res'|] eqn:Hs.
      * injection Hrun as ->. destruct (IH eq_refl) as (w & rest & -> & Hw & Hk).
        exists (String c w), rest. simpl. rewrite Hc, Hw. auto.
      * exists "", (String c s). auto.
    + exists "", (String c s). auto.
Qed.

Lemma star_complete (a : atom) (k : string -> option R) (w rest : string) :
  all_match a w = true -> is_Some (k rest) -> is_Some (star a k (w +:+ rest)).
Proof.
  intros Hw Hk. induction w as [|c w IH].
  - rewrite append_nil_l. destruct rest as [|c rest]; simpl; [exact Hk|].
    destruct (atom_matches a c); [|exact Hk].
    destruct (star a k rest); [eauto|exact Hk].
  - simpl in Hw. apply andb_prop in Hw as [Hc Hw].
    rewrite append_cons. simpl. rewrite Hc.
    destruct (IH Hw) as [res ->]. eauto.
Qed.

Lemma plus_sound (a : atom) (k : string -> option R) (s : string) (res : R) :
  plus a k s = Some res ->
  exists w rest, s = w +:+ rest /\ run_of a w /\ k rest = Some res.
Proof.
  destruct s as [|c s]; simpl; [discriminate|].
  destruct (atom_matches a c) eqn:Hc; [|discriminate].
  intros (w & rest & -> & Hw & Hk)%star_sound.
  exists (String c w), rest. repeat split; [discriminate| |exact Hk].
  simpl. rewrite Hc, Hw. reflexivity.
Qed.

Lemma plus_complete (a : atom) (k : string -> option R) (w rest : string) :
  run_of a w -> is_Some (k rest) -> is_Some (plus a k (w +:+ rest)).
Proof.
  intros [Hne Hw] Hk. destruct w as [|c w]; [congruence|].
  simpl in Hw. apply andb_prop in Hw as [Hc Hw].
  rewrite append_cons. simpl. rewrite Hc. apply star_complete; assumption.
Qed.

Lemma run_sound (r : regex) :
  forall (s : string) (cs : captures) (k : string -> captures -> option R)
         (res : R),
    run r s cs k = Some res ->
    exists w rest cs',
      s = w +:+ rest /\ matches r w cs cs' /\ k rest cs' = Some res.
Proof.
  induction r as [a|a|n r IH|r1 IH1 r2 IH2]; intros s cs k res Hrun; simpl in *.
  - destruct s as [|c s]; [discriminate|].
    destruct (atom_matches a c) eqn:Hc; [|discriminate].
    exists (String c ""), s, cs. repeat split; eauto.
  - apply plus_sound in Hrun as (w & rest & -> & Hw & Hk).
    exists w, rest, cs. auto.
  - apply IH in Hrun as (w & rest & cs1 & -> & Hw & Hk).
    rewrite consumed_append in Hk.
    exists w, rest, ((n, w) :: cs1). eauto.
  - apply IH1 in Hrun as (w1 & rest1 & cs1 & -> & Hw1 & Hk1).
    apply IH2 in Hk1 as (w2 & rest & cs2 & -> & Hw2 & Hk).
    exists (w1 +:+ w2), rest, cs2. rewrite append_assoc.
    repeat split; [|exact Hk]. exists w1, w2, cs1. auto.
Qed.

Lemma run_complete (r : regex) :
  forall (w rest : string) (cs cs' : captures)
         (k : string -> captures -> option R),
    matches r w cs cs' ->
    is_Some (k rest cs') ->
    is_Some (run r (w +:+ rest) cs k).
Proof.
  induction r as [a|a|n r IH|r1 IH1 r2 IH2]; intros w rest cs cs' k Hw Hk;
    simpl in *.
  - destruct Hw as [(c & -> & Hc) ->]. rewrite append_cons, append_nil_l.
    rewrite Hc. exact Hk.
  - destruct Hw as [Hw ->]. apply plus_complete; assumption.
  - destruct Hw as (cs1 & Hw & ->). eapply IH; [exact Hw|].
    rewrite consumed_append. exact Hk.
  - destruct Hw as (w1 & w2 & cs1 & -> & Hw1 & Hw2). rewrite append_assoc.
    eapply IH1; [exact Hw1|]. eapply IH2; eassumption.
Qed.

End Continuations.

Lemma search_sound (r : regex) (s : string) (m : captures) :
  search r s = Some m ->
  exists before w rest, s = before +:+ w +:+ rest /\ matches r w [] m.
Proof.
  induction s as [|c s IH]; simpl.
  - destruct (match_at r "") as [cs|] eqn:Hm; [|discriminate].
    intros [= ->]. apply run_sound in Hm as (w & rest & cs' & Hs & Hw & [= ->]).
    exists "", w, rest. auto.
  - destruct (match_at r (String c s)) as [cs|] eqn:Hm.
    + intros [= ->]. apply run_sound in Hm as (w & rest & cs' & Hs & Hw & [= ->]).
      exists "", w, rest. auto.
    + intros (before & w & rest & -> & Hw)%IH.
      exists (String c before), w, rest. auto.
Qed.

Lemma search_complete (r : regex) (before w rest : string) (cs : captures) :
  matches r w [] cs -> is_Some (search r (before +:+ w +:+ rest)).
Proof.
  intros Hw.
  assert (Hhere : is_Some (match_at r (w +:+ rest))).
  { unfold match_at. eapply run_complete; [exact Hw|]. eauto. }
  induction before as [|c before IH].
  - rewrite append_nil_l. destruct Hhere as [m Hm].
    destruct (w +:+ rest); simpl; rewrite Hm; eauto.
  - rewrite append_cons. simpl.
    destruct (match_at r (String c (before +:+ w +:+ rest))); [eauto|exact IH].
Qed.

End ReFacts.

(** ** The matcher on examples *)

Example search_backtracks :
  Re.search recording_pattern "val/coco_val_000137576_93.jpg"
  = Some [(2%nat, "000137576"); (1%nat, "val")].
Proof. reflexivity. Qed.

Example search_takes_the_last_two_numbers :
  Re.search recording_pattern "a/b_12_34_56."
  = Some [(2%nat, "34"); (1%nat, "a")].
Proof. reflexivity. Qed.

Example search_skips_a_bad_start :
  Re.search recording_pattern "a/a/b_1_2.c" = Some [(2%nat, "1"); (1%nat, "a")].
Proof. reflexivity. Qed.

Example search_needs_a_name :
  Re.search recording_pattern "a/_1_2." = None.
Proof. reflexivity. Qed.

Example search_needs_the_dot :
  Re.search recording_pattern "a/b_1_2" = None.
Proof. reflexivity. Qed.

(** ** The recording URL *)

Section RecordingUrl.
Import Re ReLang ReFacts.

Lemma recording_pattern_matches (w : string) (m : captures) :
  matches recording_pattern w [] m <->
  exists split_id name image_id serial : string,
    w = split_id +:+ "/" +:+ name +:+ "_" +:+ image_id +:+ "_" +:+ serial +:+ "."
    /\ run_of Word split_id /\ run_of Word name
    /\ run_of (Range "0" "9") image_id /\ run_of (Range "0" "9") serial
    /\ m = [(2%nat, image_id); (1%nat, split_id)].
Proof.
  unfold recording_pattern. cbn [cat matches]. split.
  - intros (w1 & r1 & cs1 & -> & (cs1' & [Hsplit ->] & ->) &
            w2 & r2 & cs2 & -> & [(c2 & -> & Hc2) ->] &
            w3 & r3 & cs3 & -> & [Hname ->] &
            w4 & r4 & cs4 & -> & [(c4 & -> & Hc4) ->] &
            w5 & r5 & cs5 & -> & (cs5' & [Himage ->] & ->) &
            w6 & r6 & cs6 & -> & [(c6 & -> & Hc6) ->] &
            w7 & r7 & cs7 & -> & [Hserial ->] &
            [(c8 & -> & Hc8) ->]).
    cbn [atom_matches] in Hc2, Hc4, Hc6, Hc8.
    apply Ascii.eqb_eq in Hc2 as <-, Hc4 as <-, Hc6 as <-, Hc8 as <-.
    exists w1, w3, w5, w7. auto 10.
  - intros (split_id & name & image_id & serial & -> & Hsplit & Hname &
            Himage & Hserial & ->).
    exists split_id, ("/" +:+ name +:+ "_" +:+ image_id +:+ "_" +:+ serial +:+ "."),
      [(1%nat, split_id)].
    split; [reflexivity|]. split; [eauto|].
    exists "/", (name +:+ "_" +:+ image_id +:+ "_" +:+ serial +:+ "."),
      [(1%nat, split_id)].
    split; [reflexivity|]. split; [eauto|].
    exists name, ("_" +:+ image_id +:+ "_" +:+ serial +:+ "."), [(1%nat, split_id)].
    split; [reflexivity|]. split; [eauto|].
    exists "_", (image_id +:+ "_" +:+ serial +:+ "."), [(1%nat, split_id)].
    split; [reflexivity|]. split; [eauto|].
    exists image_id, ("_" +:+ serial +:+ "."), [(2%nat, image_id); (1%nat, split_id)].
    split; [reflexivity|]. split; [eauto|].
    exists "_", (serial +:+ "."), [(2%nat, image_id); (1%nat, split_id)].
    split; [reflexivity|]. split; [eauto|].
    exists serial, ".", [(2%nat, image_id); (1%nat, split_id)].
    split; [reflexivity|]. split; eauto.
Qed.

(** A successful search found the shape, and its two groups are the split
    id and the image id of that occurrence. *)
Lemma recording_search_sound (stored : string) (m : captures) :
  search recording_pattern stored = Some m ->
  exists split_id image_id : string,
    recording_path_shape stored split_id image_id /\
    group 1 m = Some split_id /\ group 2 m = Some image_id.
Proof.
  intros (before & w & after & -> & Hw)%search_sound.
  apply recording_pattern_matches in Hw
    as (split_id & name & image_id & serial & -> & Hsplit & Hname & Himage &
        Hserial & ->).
  exists split_id, image_id. split; [|split; reflexivity].
  exists before, name, serial, after. rewrite !append_assoc. auto.
Qed.

(** The search succeeds on every stored path that has the shape. *)
Lemma recording_search_complete (stored : string) :
  well_formed_recording_path stored ->
  is_Some (search recording_pattern stored).
Proof.
  intros (split_id & image_id & before & name & serial & after & -> & Hsplit &
          Hname & Himage & Hserial).
  replace (before +:+ split_id +:+ "/" +:+ name +:+ "_" +:+ image_id +:+ "_"
           +:+ serial +:+ "." +:+ after)
    with (before +:+ (split_id +:+ "/" +:+ name +:+ "_" +:+ image_id +:+ "_"
                      +:+ serial +:+ ".") +:+ after)
    by (rewrite !append_assoc; reflexivity).
  eapply search_complete. apply recording_pattern_matches. eauto 10.
Qed.

Lemma recording_search_none (stored : string) :
  search recording_pattern stored = None <->
  ~ well_formed_recording_path stored.
Proof.
  split.
  - intros Hnone [m Hm]%recording_search_complete. congruence.
  - intros Hbad. destruct (search recording_pattern stored) as [m|] eqn:Hm;
      [|reflexivity].
    apply recording_search_sound in Hm as (split_id & image_id & Hshape & _).
    exfalso. apply Hbad. exists split_id, image_id. exact Hshape.
Qed.

(** What the property returns for a record of a family whose path is
    rewritten: the URL built from an occurrence of the shape, or
    [AttributeError] when the stored path has none. *)
Lemma voice_recording_url_rewritten (self : LocalizedNarrative) :
  needs_path_fix self = true ->
  (exists split_id image_id : string,
      recording_path_shape (voice_recording self) split_id image_id /\
      voice_recording_url self =
        Ok (_RECORDINGS_ROOT_URL +:+ "/" +:+ split_id +:+ "/" +:+ split_id
            +:+ "_" +:+ zfill 16 image_id +:+ "_"
            +:+ str_of_int (annotator_id self) +:+ ".ogg"))
  \/ (~ well_formed_recording_path (voice_recording self) /\
      voice_recording_url self = Raise AttributeError).
Proof.
  intros Hfix. unfold voice_recording_url. rewrite Hfix.
  destruct (search recording_pattern (voice_recording self)) as [m|] eqn:Hm.
  - left. apply recording_search_sound in Hm
      as (split_id & image_id & Hshape & -> & ->).
    exists split_id, image_id. split; [exact Hshape|reflexivity].
  - right. split; [|reflexivity]. apply recording_search_none. exact Hm.
Qed.

Lemma digits_are_word_characters (w : string) :
  run_of (Range "0" "9") w -> run_of Word w.
Proof.
  intros [Hne Hall]. split; [exact Hne|]. clear Hne.
  induction w as [|c w IH]; [reflexivity|].
  simpl in Hall. apply andb_prop in Hall as [Hc Hw].
  change (all_match Word (String c w)) with (is_word c && all_match Word w).
  rewrite (IH Hw), andb_true_r. unfold is_word.
  change (between 48 57 c = true) in Hc. rewrite Hc. reflexivity.
Qed.

(** What the pattern looks for is within what the specification
    describes. *)
Lemma well_formed_is_described (stored : string) :
  well_formed_recording_path stored -> described_recording_path stored.
Proof.
  intros (split_id & image_id & before & name & serial & after & -> & Hsplit &
          Hname & Himage & Hserial).
  exists before, split_id, name, image_id, serial, after.
  split; [reflexivity|]. split; [exact Hsplit|]. split; [exact Hname|].
  split; [exact Himage|]. apply digits_are_word_characters, Hserial.
Qed.

Lemma contains_append_r (needle before s : string) :
  contains needle s = true -> contains needle (before +:+ s) = true.
Proof.
  intros Hs. induction before as [|c before IH]; [exact Hs|].
  rewrite append_cons. simpl. rewrite IH. apply orb_true_r.
Qed.

Lemma described_has_underscore (stored : string) :
  described_recording_path stored -> contains "_" stored = true.
Proof.
  intros (before & split_id & name & image_id & text & ext & -> & _).
  do 4 apply contains_append_r.
  destruct (image_id +:+ "_" +:+ text +:+ "." +:+ ext); reflexivity.
Qed.


End RecordingUrl.

(** C1: a record of a family whose path is rewritten, with the stored
    path [val/coco_val_000137576_93.jpg], resolves to the recordings root
    followed by [/val/val_0000000000137576_<annotator_id>.ogg]: the split
    is the first component, the image id is padded to 16 digits, the
    extension is dropped and the number after the image id is the
    annotator's.  With annotator 93 this is
    [/val/val_0000000000137576_93.ogg]. *)
Theorem voice_recording_url_rewrites_example (self : LocalizedNarrative) :
  needs_path_fix self = true ->
  voice_recording self = "val/coco_val_000137576_93.jpg" ->
  voice_recording_url self =
    Ok (_RECORDINGS_ROOT_URL +:+ "/" +:+ "val/val_0000000000137576_"
        +:+ str_of_int (annotator_id self) +:+ ".ogg")
  /\ (annotator_id self = 93 ->
      voice_recording_url self =
        Ok (_RECORDINGS_ROOT_URL +:+ "/" +:+ "val/val_0000000000137576_93.ogg")).
Proof.
  intros Hfix Hstored.
  assert (Hurl : voice_recording_url self =
            Ok (_RECORDINGS_ROOT_URL +:+ "/" +:+ "val/val_0000000000137576_"
                +:+ str_of_int (annotator_id self) +:+ ".ogg")).
  { unfold voice_recording_url. rewrite Hfix, Hstored, search_backtracks.
    reflexivity. }
  split; [exact Hurl|].
  intros Hannotator. rewrite Hurl, Hannotator. reflexivity.
Qed.

Lemma voice_recording_url_rewrites_example_witness :
  voice_recording_url
    {| dataset_id := "Flickr30k"; image_id := "137576"; annotator_id := 93;
       caption := "a dog"; timed_caption := []; traces := [];
       voice_recording := "val/coco_val_000137576_93.jpg" |}
  = Ok (_RECORDINGS_ROOT_URL +:+ "/" +:+ "val/val_0000000000137576_93.ogg").
Proof.
  apply (voice_recording_url_rewrites_example
           {| dataset_id := "Flickr30k"; image_id := "137576";
              annotator_id := 93; caption := "a dog"; timed_caption := [];
              traces := [];
              voice_recording := "val/coco_val_000137576_93.jpg" |});
    reflexivity.
Defined.

(** C8: for a record whose [dataset_id] holds neither marker, the URL is
    the recordings root, a slash and the stored path as it is. *)
Theorem voice_recording_url_default (self : LocalizedNarrative) :
  needs_path_fix self = false ->
  voice_recording_url self =
    Ok (_RECORDINGS_ROOT_URL +:+ "/" +:+ voice_recording self).
Proof.
  intros Hfix. unfold voice_recording_url. rewrite Hfix. reflexivity.
Qed.

Lemma voice_recording_url_default_witness :
  voice_recording_url
    {| dataset_id := "open_images_val"; image_id := "1"; annotator_id := 7;
       caption := ""; timed_caption := []; traces := [];
       voice_recording := "abc/def.ogg" |}
  = Ok (_RECORDINGS_ROOT_URL +:+ "/" +:+ "abc/def.ogg").
Proof.
  apply (voice_recording_url_default
           {| dataset_id := "open_images_val"; image_id := "1";
              annotator_id := 7; caption := ""; timed_caption := [];
              traces := []; voice_recording := "abc/def.ogg" |}).
  reflexivity.
Defined.

(** C4: for a record of a family whose path is rewritten, a stored path
    that does not have the shape [<split>/<text>_<digits>_<text>.<ext>]
    makes the property raise ([AttributeError], from [None.groups()]);
    indeed it raises as soon as the narrower shape of the pattern, with
    digits after the second underscore, occurs nowhere in the stored
    path.  For a record of the default family the property never raises
    and returns the stored path unchanged behind the recordings root. *)
Theorem voice_recording_url_malformed (self : LocalizedNarrative) :
  (needs_path_fix self = true ->
   ~ described_recording_path (voice_recording self) ->
   voice_recording_url self = Raise AttributeError)
  /\ (needs_path_fix self = true ->
      ~ well_formed_recording_path (voice_recording self) ->
      voice_recording_url self = Raise AttributeError)
  /\ (needs_path_fix self = false ->
      voice_recording_url self =
        Ok (_RECORDINGS_ROOT_URL +:+ "/" +:+ voice_recording self)).
Proof.
  assert (Hraise : needs_path_fix self = true ->
                   ~ well_formed_recording_path (voice_recording self) ->
                   voice_recording_url self = Raise AttributeError).
  { intros Hfix Hbad. unfold voice_recording_url. rewrite Hfix.
    apply recording_search_none in Hbad. rewrite Hbad. reflexivity. }
  split; [|split].
  - intros Hfix Hbad. apply Hraise; [exact Hfix|].
    intros Hshape. apply Hbad, well_formed_is_described, Hshape.
  - exact Hraise.
  - intros Hfix. unfold voice_recording_url. rewrite Hfix. reflexivity.
Qed.

Lemma voice_recording_url_malformed_witness :
  voice_recording_url
    {| dataset_id := "Flickr30k"; image_id := "1"; annotator_id := 7;
       caption := ""; timed_caption := []; traces := [];
       voice_recording := "abc/def.ogg" |}
  = Raise AttributeError
  /\ voice_recording_url
       {| dataset_id := "ADE20k"; image_id := "1"; annotator_id := 7;
          caption := ""; timed_caption := []; traces := [];
          voice_recording := "val/ADE_val_00000012_x7.ogg" |}
     = Raise AttributeError
  /\ voice_recording_url
       {| dataset_id := "open_images_val"; image_id := "1"; annotator_id := 7;
          caption := ""; timed_caption := []; traces := [];
          voice_recording := "abc/def.ogg" |}
     = Ok (_RECORDINGS_ROOT_URL +:+ "/" +:+ "abc/def.ogg").
Proof.
  split; [|split].
  - apply (proj1 (voice_recording_url_malformed
                    {| dataset_id := "Flickr30k"; image_id := "1";
                       annotator_id := 7; caption := ""; timed_caption := [];
                       traces := []; voice_recording := "abc/def.ogg" |})).
    + reflexivity.
    + intros Hshape%described_has_underscore.
      vm_compute in Hshape. discriminate Hshape.
  - apply (proj1 (proj2 (voice_recording_url_malformed
                    {| dataset_id := "ADE20k"; image_id := "1";
                       annotator_id := 7; caption := ""; timed_caption := [];
                       traces := [];
                       voice_recording := "val/ADE_val_00000012_x7.ogg" |}))).
    + reflexivity.
    + intros Hshape%recording_search_complete.
      vm_compute in Hshape. destruct Hshape as [m Hm]. discriminate Hm.
  - apply (proj2 (proj2 (voice_recording_url_malformed
                    {| dataset_id := "open_images_val"; image_id := "1";
                       annotator_id := 7; caption := ""; timed_caption := [];
                       traces := []; voice_recording := "abc/def.ogg" |}))).
    reflexivity.
Defined.

(** ** The textual representation *)

(** C10: on a record whose [timed_caption] is empty, whose [traces] is
    empty, or whose first trace is empty, [__repr__] raises [IndexError]
    and returns no string, whatever the rendering of the elements. *)
Theorem repr_index_error
    (str_utterance : TimedUtterance -> string)
    (str_point : TimedPoint -> string) (self : LocalizedNarrative) :
  timed_caption self = [] \/ traces self = [] \/
  (exists others, traces self = [] :: others) ->
  __repr__ str_utterance str_point self = Raise IndexError.
Proof.
  unfold __repr__. intros [Hcaption|[Htraces|[others Htraces]]].
  - rewrite Hcaption. reflexivity.
  - rewrite Htraces. destruct (timed_caption self); reflexivity.
  - rewrite Htraces. destruct (timed_caption self); reflexivity.
Qed.

Lemma repr_index_error_witness :
  __repr__ (fun u => utterance u) (fun _ => "p")
    {| dataset_id := "coco_val"; image_id := "1"; annotator_id := 3;
       caption := "a cat"; timed_caption := [];
       traces := [[mkTimedPoint 0 0 0]]; voice_recording := "a/b.ogg" |}
  = Raise IndexError.
Proof.
  apply repr_index_error. left. reflexivity.
Defined.

(** ** The generators, loop by loop

    The loops of the model run over the list that [ef_rest] gives.  The
    three lemmas below show that they are the loops of the source: each
    one resumes the generator it iterates over and handles what comes
    out of it. *)

Lemma ef_next_rest (st : ef_state) :
  ef_next st =
    match ef_rest st with
    | Ok [] => (StopIteration, EF_done)
    | Ok (name :: rest) => (Yielded name, EF_iter rest)
    | Raise e => (Raised e, EF_done)
    end.
Proof.
  destruct st as [key|rest|]; simpl; [|reflexivity..].
  destruct (_ANNOTATION_FILES !! key); reflexivity.
Qed.

Lemma ff_next_loop (fs : gmap string node) (self : DataLoader)
    (inner : ef_state) :
  ff_next fs self (FF inner) =
    match ef_next inner with
    | (Yielded filename, inner') =>
        if Os.path_exists fs (_local_file self filename)
        then ([EvExists (_local_file self filename) true],
              Yielded (_local_file self filename), FF inner')
        else after [EvExists (_local_file self filename) false]
               (ff_next fs self (FF inner'))
    | (StopIteration, _) => ([], StopIteration, FF EF_done)
    | (Raised e, _) => ([], Raised e, FF EF_done)
    end.
Proof.
  rewrite ef_next_rest. unfold ff_next.
  destruct (ef_rest inner) as [[|name rest]|e]; reflexivity.
Qed.

Lemma la_enter_loop (decode : string -> result LocalizedNarrative)
    (fs : gmap string node) (self : DataLoader) (max num : Z)
    (files : ff_state) :
  la_enter decode fs self max num files =
    match ff_next fs self files with
    | (evs, Yielded path, files') =>
        after (evs ++ [EvOpen path])
          match Os.open_rb fs path with
          | Ok lines =>
              la_lines decode max (la_enter decode fs self max num files')
                num files' path lines
          | Raise e => ([], Raised e, LA_done)
          end
    | (evs, StopIteration, _) => (evs, StopIteration, LA_done)
    | (evs, Raised e, _) => (evs, Raised e, LA_done)
    end.
Proof.
  destruct files as [inner]. unfold la_enter, ff_next.
  destruct (ef_rest inner) as [names|e]; [|reflexivity].
  induction names as [|filename rest IH]; [reflexivity|].
  simpl. destruct (Os.path_exists fs (_local_file self filename)).
  - simpl. reflexivity.
  - rewrite IH.
    destruct (ff_scan fs self rest) as [[evs [path| |e]] files'];
      simpl; try reflexivity.
    destruct (Os.open_rb fs path) as [lines|e]; [|reflexivity].
    destruct (la_lines _ _ _ _ _ _ _) as [[evs' out] st']. reflexivity.
Qed.

(** ** One resumption of [load_annotations] *)

Section LoaderSteps.
Variable decode : string -> result LocalizedNarrative.
Variable fs : gmap string node.
Variable self : DataLoader.


Lemma present_lines_cons (filename : string) (rest : list string) :
  present_lines fs self (filename :: rest) =
    file_lines fs (_local_file self filename) ++ present_lines fs self rest.
Proof. reflexivity. Qed.

Lemma read_lines_app (evs1 evs2 : list event) :
  read_lines (evs1 ++ evs2) = read_lines evs1 ++ read_lines evs2.
Proof. apply omap_app. Qed.

Lemma reads_first_after (num max : Z) (pending : list string)
    (evs0 : list event)
    (step : list event * outcome LocalizedNarrative * la_state) :
  read_lines evs0 = [] ->
  reads_first decode fs self num max pending step ->
  reads_first decode fs self num max pending (after evs0 step).
Proof.
  intros Hquiet. unfold reads_first.
  destruct pending as [|line pending'].
  - intros (evs & -> & Hevs). exists (evs0 ++ evs). split; [reflexivity|].
    rewrite read_lines_app, Hquiet, Hevs. reflexivity.
  - intros (evs & Hevs & Hstep). exists (evs0 ++ evs).
    split; [rewrite read_lines_app, Hquiet, Hevs; reflexivity|].
    destruct (decode line) as [narrative|e].
    + destruct Hstep as (files & path & lines & -> & Hreg & Hpend).
      exists files, path, lines. auto.
    + rewrite Hstep. reflexivity.
Qed.

Lemma la_lines_reads_first (num max : Z) (names : list string)
    (path : string) (lines : list string)
    (next_file : list event * outcome LocalizedNarrative * la_state) :
  regular_files fs self names ->
  reads_first decode fs self num max (present_lines fs self names) next_file ->
  reads_first decode fs self num max (lines ++ present_lines fs self names)
    (la_lines decode max next_file num (FF (EF_iter names)) path lines).
Proof.
  intros Hreg Hnext. destruct lines as [|line lines'].
  - simpl. apply reads_first_after; [reflexivity|exact Hnext].
  - simpl. exists [EvReadLine path line]. split; [reflexivity|].
    destruct (decode line) as [narrative|e]; [|reflexivity].
    exists (FF (EF_iter names)), path, lines'.
    split; [reflexivity|]. split; [|reflexivity].
    exists names. auto.
Qed.

Lemma la_files_reads_first (num max : Z) (names : list string) :
  regular_files fs self names ->
  reads_first decode fs self num max (present_lines fs self names)
    (la_files decode fs self max num names).
Proof.
  induction names as [|filename rest IH]; intros Hreg.
  - exists []. auto.
  - apply Forall_cons in Hreg as [Hfile Hrest].
    rewrite present_lines_cons. simpl. unfold file_lines, Os.path_exists, Os.open_rb.
    destruct (fs !! _local_file self filename) as [[lines|]|]; [| |].
    + apply reads_first_after; [reflexivity|].
      apply la_lines_reads_first; auto.
    + congruence.
    + apply reads_first_after; [reflexivity|]. simpl. auto.
Qed.

(** A generator that has reached its limit closes the file and ends. *)
Lemma la_next_exhausted (st : la_state) :
  allowance st = Some O ->
  exists path, la_next decode fs self st = ([EvClose path], StopIteration, LA_done).
Proof.
  destruct st as [key max|num max files path lines|]; simpl; [| |discriminate].
  - destruct (Z.ltb_spec 0 max); [|discriminate]. intros [= Hmax]. lia.
  - destruct (Z.ltb_spec (num + 1) max); [intros [= Hmax]; lia|].
    destruct (Z.eqb_spec (num + 1) max); [|discriminate].
    intros _. exists path. reflexivity.
Qed.

(** A generator below its limit reads the first line in front of it. *)
Lemma la_next_reads_first (st : la_state) :
  la_regular fs self st ->
  allowance st <> Some O ->
  exists num max,
    reads_first decode fs self num max (la_pending fs self st)
      (la_next decode fs self st) /\
    forall files path lines,
      allowance (LA_yielded num max files path lines) = spend 1 (allowance st).
Proof.
  destruct st as [key max|num max [inner] path lines|];
    cbn [la_regular la_pending la_next _expected_files ef_rest
         la_enter _find_files].
  - intros (names & Hkey & Hreg) _. exists 0, max. rewrite Hkey. split.
    + apply la_files_reads_first. exact Hreg.
    + intros files0 path0 lines0. unfold allowance, spend. change (0 + 1) with 1.
      destruct (Z.ltb_spec 0 max), (Z.ltb_spec 1 max), (Z.eqb_spec 1 max);
        try lia; try reflexivity; f_equal; lia.
  - intros (names & -> & Hreg) Hallow. exists (num + 1), max.
    cbn [ef_rest la_enter]. cbn [allowance] in Hallow.
    destruct (Z.eqb_spec (num + 1) max) as [Heq|Hne].
    { destruct (Z.ltb_spec (num + 1) max); [lia|congruence]. }
    split.
    + apply la_lines_reads_first; [exact Hreg|].
      apply la_files_reads_first. exact Hreg.
    + intros files0 path0 lines0. unfold allowance, spend.
      destruct (Z.ltb_spec (num + 1) max), (Z.ltb_spec (num + 1 + 1) max),
        (Z.eqb_spec (num + 1 + 1) max), (Z.eqb_spec (num + 1) max);
        try lia; try reflexivity; f_equal; lia.
  - intros _ _. exists 0, 0. split; [|reflexivity].
    exists []. auto.
Qed.

End LoaderSteps.

(** ** The generator driven to its end *)

Section LoaderRuns.
Variable decode : string -> result LocalizedNarrative.
Variable fs : gmap string node.
Variable self : DataLoader.


Lemma decoded_cons (line : string) (lines : list string)
    (narrative : LocalizedNarrative) :
  decode line = Ok narrative ->
  decoded decode (line :: lines) = narrative :: decoded decode lines.
Proof. intros Hline. unfold decoded. simpl. rewrite Hline. reflexivity. Qed.

Lemma decoded_length (lines : list string) :
  Forall (decodable decode) lines -> length (decoded decode lines) = length lines.
Proof.
  induction 1 as [|line lines [narrative Hline] _ IH]; [reflexivity|].
  rewrite (decoded_cons _ _ _ Hline). simpl. rewrite IH. reflexivity.
Qed.

Lemma la_drive_add (n m : nat) (st st' : la_state) (evs : list event)
    (ys : list LocalizedNarrative) :
  la_drive decode fs self n st = mkRun evs ys None st' ->
  la_drive decode fs self (n + m) st =
    mkRun (evs ++ run_trace (la_drive decode fs self m st'))
          (ys ++ run_yielded (la_drive decode fs self m st'))
          (run_end (la_drive decode fs self m st'))
          (run_state (la_drive decode fs self m st')).
Proof.
  revert st evs ys. induction n as [|n IH]; intros st evs ys.
  - simpl. intros [= <- <- <-]. destruct (la_drive decode fs self m st). reflexivity.
  - simpl. destruct (la_next decode fs self st) as [[evs1 [y| |e]] st1];
      [|discriminate..].
    destruct (la_drive decode fs self n st1) as [evs2 ys2 end2 st2] eqn:Hrun. simpl.
    intros [= <- <- -> ->]. rewrite (IH _ _ _ Hrun). simpl.
    rewrite <- app_assoc. reflexivity.
Qed.

(** The first [n] resumptions, while lines remain and the limit allows:
    each reads one line and yields its record. *)
Lemma la_drive_prefix (n : nat) :
  forall st : la_state,
    la_regular fs self st ->
    Forall (decodable decode) (take n (la_pending fs self st)) ->
    (n <= length (la_pending fs self st))%nat ->
    (forall a, allowance st = Some a -> (n <= a)%nat) ->
    exists evs st',
      la_drive decode fs self n st =
        mkRun evs (decoded decode (take n (la_pending fs self st))) None st' /\
      read_lines evs = take n (la_pending fs self st) /\
      la_regular fs self st' /\
      la_pending fs self st' = drop n (la_pending fs self st) /\
      allowance st' = spend n (allowance st).
Proof.
  induction n as [|n IH]; intros st Hreg Hdec Hlen Hallow.
  - exists [], st. simpl. repeat split; try assumption.
    destruct (allowance st) as [a|]; simpl; [f_equal; lia|reflexivity].
  - destruct (la_next_reads_first decode fs self st Hreg)
      as (num & max & Hstep & Hspend).
    { intros Hzero. specialize (Hallow _ Hzero). lia. }
    destruct (la_pending fs self st) as [|line pending] eqn:Hpending;
      [simpl in Hlen; lia|].
    simpl in Hdec. apply Forall_cons in Hdec as [[narrative Hline] Hdec].
    destruct Hstep as (evs & Hevs & Hstep). rewrite Hline in Hstep.
    destruct Hstep as (files & path & lines & Hnext & Hreg' & Hpending').
    specialize (Hspend files path lines).
    destruct (IH (LA_yielded num max files path lines)) as
      (evs' & st' & Hrun & Hread & Hreg'' & Hpend'' & Hallow'').
    + exact Hreg'.
    + rewrite Hpending'. exact Hdec.
    + rewrite Hpending'. simpl in Hlen. lia.
    + intros a Ha. rewrite Hspend in Ha.
      destruct (allowance st) as [a0|]; [|discriminate].
      injection Ha as <-. specialize (Hallow a0 eq_refl). lia.
    + exists (evs ++ evs'), st'. rewrite Hpending' in *.
      cbn [la_drive take drop]. rewrite Hnext, Hrun.
      cbn [run_trace run_yielded run_end run_state].
      rewrite (decoded_cons _ _ _ Hline).
      repeat split; try assumption.
      * rewrite read_lines_app, Hevs, Hread. reflexivity.
      * rewrite Hallow'', Hspend. destruct (allowance st); simpl;
          [f_equal; lia|reflexivity].
Qed.

Lemma within_length_le {A : Type} (allowed : option nat) (l : list A) :
  (length (within allowed l) <= length l)%nat.
Proof. destruct allowed; simpl; [rewrite length_take; lia|lia]. Qed.

Lemma take_within_length {A : Type} (allowed : option nat) (l : list A) :
  take (length (within allowed l)) l = within allowed l.
Proof.
  destruct allowed as [a|]; simpl; [|apply firstn_all].
  rewrite length_take. destruct (Nat.le_ge_cases a (length l)).
  - rewrite Nat.min_l by assumption. reflexivity.
  - rewrite Nat.min_r by assumption. rewrite !take_ge by lia. reflexivity.
Qed.

(** The whole run: the records of the lines the limit lets through, in
    order, then a normal end. *)
Lemma la_drive_complete (st : la_state) (fuel : nat) :
  la_regular fs self st ->
  Forall (decodable decode) (within (allowance st) (la_pending fs self st)) ->
  (length (within (allowance st) (la_pending fs self st)) < fuel)%nat ->
  exists evs,
    la_drive decode fs self fuel st =
      mkRun evs (decoded decode (within (allowance st) (la_pending fs self st)))
            (Some None) LA_done /\
    read_lines evs = within (allowance st) (la_pending fs self st).
Proof.
  intros Hreg Hdec Hfuel.
  set (n := length (within (allowance st) (la_pending fs self st))) in *.
  destruct (la_drive_prefix n st Hreg) as
    (evs & st' & Hrun & Hread & Hreg' & Hpend & Hallow).
  - unfold n. rewrite take_within_length. exact Hdec.
  - apply within_length_le.
  - intros a Ha. unfold n. rewrite Ha. simpl. rewrite length_take. lia.
  - unfold n in Hrun, Hread. rewrite take_within_length in Hrun, Hread.
    replace fuel with (n + S (fuel - n - 1))%nat by lia.
    rewrite (la_drive_add _ _ _ _ _ _ Hrun).
    assert (Hstop : exists evs',
               la_next decode fs self st' = (evs', StopIteration, LA_done)
               /\ read_lines evs' = []).
    { destruct (allowance st) as [a|] eqn:Ha.
      - destruct (Nat.le_gt_cases a (length (la_pending fs self st))) as [Hle|Hgt].
        + destruct (la_next_exhausted decode fs self st') as [path Hnext].
          { rewrite Hallow. simpl. f_equal. unfold n. simpl.
            rewrite length_take. lia. }
          exists [EvClose path]. auto.
        + destruct (la_next_reads_first decode fs self st' Hreg')
            as (num & max & Hstep & _).
          { rewrite Hallow. simpl. unfold n. simpl. rewrite length_take.
            intros [= Hzero]. lia. }
          rewrite Hpend in Hstep. unfold n in Hstep. simpl in Hstep.
          rewrite length_take, drop_ge in Hstep by lia. exact Hstep.
      - destruct (la_next_reads_first decode fs self st' Hreg')
          as (num & max & Hstep & _).
        { rewrite Hallow. discriminate. }
        rewrite Hpend in Hstep. unfold n in Hstep. simpl in Hstep.
        rewrite drop_all in Hstep. exact Hstep. }
    destruct Hstop as (evs' & Hnext & Hquiet).
    exists (evs ++ evs'). simpl. rewrite Hnext. simpl.
    rewrite app_nil_r. split; [reflexivity|].
    rewrite read_lines_app, Hread, Hquiet, app_nil_r. reflexivity.
Qed.

End LoaderRuns.

(** ** Only files that exist are opened *)

Section LoaderOpens.
Variable decode : string -> result LocalizedNarrative.
Variable fs : gmap string node.
Variable self : DataLoader.


Lemma opened_app (evs1 evs2 : list event) :
  opened (evs1 ++ evs2) = opened evs1 ++ opened evs2.
Proof. apply omap_app. Qed.

Lemma opens_present_after (evs : list event)
    (step : list event * outcome LocalizedNarrative * la_state) :
  Forall (fun path => Os.path_exists fs path = true) (opened evs) ->
  opens_present fs step -> opens_present fs (after evs step).
Proof.
  destruct step as [[evs' out] st]. unfold opens_present. simpl.
  rewrite opened_app. intros. apply Forall_app. auto.
Qed.

Lemma la_lines_opens_present (max num : Z) (files : ff_state) (path : string)
    (lines : list string)
    (next_file : list event * outcome LocalizedNarrative * la_state) :
  opens_present fs next_file ->
  opens_present fs (la_lines decode max next_file num files path lines).
Proof.
  intros Hnext. destruct lines as [|line lines']; simpl.
  - apply opens_present_after; [constructor|exact Hnext].
  - destruct (decode line); constructor.
Qed.

Lemma la_files_opens_present (max num : Z) (names : list string) :
  opens_present fs (la_files decode fs self max num names).
Proof.
  induction names as [|filename rest IH]; [constructor|].
  simpl. destruct (Os.path_exists fs (_local_file self filename)) eqn:Hexists.
  - apply opens_present_after; [repeat constructor; exact Hexists|].
    destruct (Os.open_rb fs (_local_file self filename)); [|constructor].
    apply la_lines_opens_present. exact IH.
  - apply opens_present_after; [constructor|exact IH].
Qed.

Lemma la_enter_opens_present (max num : Z) (files : ff_state) :
  opens_present fs (la_enter decode fs self max num files).
Proof.
  destruct files as [inner]. unfold la_enter.
  destruct (ef_rest inner); [apply la_files_opens_present|constructor].
Qed.

Lemma la_next_opens_present (st : la_state) :
  opens_present fs (la_next decode fs self st).
Proof.
  destruct st as [key max|num max files path lines|]; cbn [la_next].
  - apply la_enter_opens_present.
  - destruct (num + 1 =? max); [constructor|].
    apply la_lines_opens_present, la_enter_opens_present.
  - constructor.
Qed.

Lemma la_drive_opens_present (fuel : nat) (st : la_state) :
  Forall (fun path => Os.path_exists fs path = true)
    (opened (run_trace (la_drive decode fs self fuel st))).
Proof.
  revert st. induction fuel as [|fuel IH]; intros st; [constructor|].
  simpl. pose proof (la_next_opens_present st) as Hstep.
  destruct (la_next decode fs self st) as [[evs [y| |e]] st'];
    unfold opens_present in Hstep; simpl in *; try exact Hstep.
  rewrite opened_app. apply Forall_app. auto.
Qed.

End LoaderOpens.

(** ** The limit, absent files, and a limit that is not positive *)

Section LoaderClaims.
Variable decode : string -> result LocalizedNarrative.
Variable fs : gmap string node.
Variable self : DataLoader.

Lemma la_pending_start (key : string) (names : list string) (max : Z) :
  _ANNOTATION_FILES !! key = Some names ->
  la_pending fs self (load_annotations key max) = present_lines fs self names.
Proof. intros Hkey. simpl. rewrite Hkey. reflexivity. Qed.

(** C2: for a known key and a limit [N >= 1], when the local files that
    are present hold more than [N] lines, all decodable, the first [N]
    resumptions yield the records of the first [N] lines, in the order of
    the registry and of the lines in each file, and read exactly those
    lines; the next resumption only closes the file and ends the
    generator, so that the whole run yields exactly [N] records and
    reads no further line or file. *)
Theorem load_annotations_limit (key : string) (names : list string) (N : Z) :
  _ANNOTATION_FILES !! key = Some names ->
  0 < N ->
  regular_files fs self names ->
  Forall (decodable decode) (present_lines fs self names) ->
  N < Z.of_nat (length (present_lines fs self names)) ->
  exists evs st path,
    la_drive decode fs self (Z.to_nat N) (load_annotations key N) =
      mkRun evs
        (decoded decode (take (Z.to_nat N) (present_lines fs self names)))
        None st /\
    Z.of_nat
      (length (decoded decode
                 (take (Z.to_nat N) (present_lines fs self names)))) = N /\
    read_lines evs = take (Z.to_nat N) (present_lines fs self names) /\
    la_next decode fs self st = ([EvClose path], StopIteration, LA_done) /\
    forall extra : nat,
      la_drive decode fs self (Z.to_nat N + S extra) (load_annotations key N) =
        mkRun (evs ++ [EvClose path])
          (decoded decode (take (Z.to_nat N) (present_lines fs self names)))
          (Some None) LA_done.
Proof.
  intros Hkey Hpos Hreg Hdec Hmore.
  pose proof (la_pending_start key names N Hkey) as Hpending.
  destruct (la_drive_prefix decode fs self (Z.to_nat N) (load_annotations key N))
    as (evs & st & Hrun & Hread & _ & _ & Hallow).
  - exists names. auto.
  - rewrite Hpending. apply Forall_take. exact Hdec.
  - rewrite Hpending. lia.
  - simpl. destruct (Z.ltb_spec 0 N); [|lia]. intros a [= <-]. lia.
  - rewrite Hpending in Hrun, Hread.
    destruct (la_next_exhausted decode fs self st) as [path Hnext].
    { rewrite Hallow. simpl. destruct (Z.ltb_spec 0 N); [|lia].
      simpl. f_equal. lia. }
    exists evs, st, path. repeat split; try assumption.
    + rewrite decoded_length by (apply Forall_take; exact Hdec).
      rewrite length_take. lia.
    + intros extra. rewrite (la_drive_add _ _ _ _ _ _ _ _ _ Hrun).
      simpl. rewrite Hnext. simpl. rewrite app_nil_r. reflexivity.
Qed.

(** C6: for a known key, when some expected files are absent and the
    present ones are regular files of decodable lines, the generator
    yields the records of the present files only, in the order of the
    registry, up to the limit when it is positive; it opens no absent
    file and ends without an exception. *)
Theorem load_annotations_skips_absent (key : string) (names : list string)
    (max : Z) (fuel : nat) :
  _ANNOTATION_FILES !! key = Some names ->
  regular_files fs self names ->
  Forall (decodable decode) (present_lines fs self names) ->
  (length (present_lines fs self names) < fuel)%nat ->
  exists evs,
    la_drive decode fs self fuel (load_annotations key max) =
      mkRun evs
        (decoded decode
           (if 0 <? max then take (Z.to_nat max) (present_lines fs self names)
            else present_lines fs self names))
        (Some None) LA_done /\
    Forall (fun path => Os.path_exists fs path = true) (opened evs).
Proof.
  intros Hkey Hreg Hdec Hfuel.
  pose proof (la_pending_start key names max Hkey) as Hpending.
  destruct (la_drive_complete decode fs self
              (load_annotations key max) fuel) as (evs & Hrun & _).
  - exists names. auto.
  - rewrite Hpending. simpl. destruct (0 <? max); simpl;
      [apply Forall_take|]; exact Hdec.
  - pose proof (within_length_le (allowance (load_annotations key max))
                  (la_pending fs self (load_annotations key max))) as Hle.
    rewrite Hpending in Hle at 2. lia.
  - exists evs. split.
    + rewrite Hrun, Hpending. simpl. destruct (0 <? max); reflexivity.
    + pose proof (la_drive_opens_present decode fs self fuel
                    (load_annotations key max)) as Hopen.
      rewrite Hrun in Hopen. exact Hopen.
Qed.

(** C9: with a limit that is zero or negative the generator does not
    stop at zero records: it reads every line of every present file and
    yields all their records. *)
Theorem load_annotations_nonpositive_limit (key : string)
    (names : list string) (max : Z) (fuel : nat) :
  _ANNOTATION_FILES !! key = Some names ->
  max <= 0 ->
  regular_files fs self names ->
  Forall (decodable decode) (present_lines fs self names) ->
  (length (present_lines fs self names) < fuel)%nat ->
  exists evs,
    la_drive decode fs self fuel (load_annotations key max) =
      mkRun evs (decoded decode (present_lines fs self names))
        (Some None) LA_done /\
    length (decoded decode (present_lines fs self names)) =
      length (present_lines fs self names) /\
    read_lines evs = present_lines fs self names.
Proof.
  intros Hkey Hmax Hreg Hdec Hfuel.
  pose proof (la_pending_start key names max Hkey) as Hpending.
  assert (Hallow : allowance (load_annotations key max) = None).
  { simpl. destruct (Z.ltb_spec 0 max); [lia|reflexivity]. }
  destruct (la_drive_complete decode fs self
              (load_annotations key max) fuel) as (evs & Hrun & Hread).
  - exists names. auto.
  - rewrite Hallow, Hpending. exact Hdec.
  - rewrite Hallow, Hpending. exact Hfuel.
  - rewrite Hallow, Hpending in Hrun, Hread. exists evs.
    repeat split; try assumption. apply decoded_length. exact Hdec.
Qed.

End LoaderClaims.

Lemma load_annotations_limit_witness :
  exists evs st path,
    la_drive sample_decode sample_fs sample_loader (Z.to_nat 2)
      (load_annotations "coco_train" 2) =
      mkRun evs
        (decoded sample_decode
           (take (Z.to_nat 2)
              (present_lines sample_fs sample_loader sample_names)))
        None st /\
    Z.of_nat
      (length (decoded sample_decode
                 (take (Z.to_nat 2)
                    (present_lines sample_fs sample_loader sample_names)))) = 2 /\
    read_lines evs =
      take (Z.to_nat 2) (present_lines sample_fs sample_loader sample_names) /\
    la_next sample_decode sample_fs sample_loader st =
      ([EvClose path], StopIteration, LA_done) /\
    forall extra : nat,
      la_drive sample_decode sample_fs sample_loader (Z.to_nat 2 + S extra)
        (load_annotations "coco_train" 2) =
        mkRun (evs ++ [EvClose path])
          (decoded sample_decode
             (take (Z.to_nat 2)
                (present_lines sample_fs sample_loader sample_names)))
          (Some None) LA_done.
Proof.
  apply (load_annotations_limit sample_decode sample_fs sample_loader
           "coco_train" sample_names 2).
  - vm_compute. reflexivity.
  - lia.
  - repeat constructor; vm_compute; discriminate.
  - vm_compute. repeat (constructor; [eexists; reflexivity|]). constructor.
  - vm_compute. reflexivity.
Defined.

Lemma load_annotations_skips_absent_witness :
  exists evs,
    la_drive sample_decode sample_fs sample_loader 4
      (load_annotations "coco_train" default_max_num_annotations) =
      mkRun evs
        (decoded sample_decode
           (if 0 <? default_max_num_annotations
            then take (Z.to_nat default_max_num_annotations)
                   (present_lines sample_fs sample_loader sample_names)
            else present_lines sample_fs sample_loader sample_names))
        (Some None) LA_done /\
    Forall (fun path => Os.path_exists sample_fs path = true) (opened evs).
Proof.
  apply (load_annotations_skips_absent sample_decode sample_fs sample_loader
           "coco_train" sample_names default_max_num_annotations 4).
  - vm_compute. reflexivity.
  - repeat constructor; vm_compute; discriminate.
  - vm_compute. repeat (constructor; [eexists; reflexivity|]). constructor.
  - vm_compute. lia.
Defined.

Lemma load_annotations_nonpositive_limit_witness :
  exists evs,
    la_drive sample_decode sample_fs sample_loader 4
      (load_annotations "coco_train" 0) =
      mkRun evs
        (decoded sample_decode
           (present_lines sample_fs sample_loader sample_names))
        (Some None) LA_done /\
    length (decoded sample_decode
              (present_lines sample_fs sample_loader sample_names)) =
      length (present_lines sample_fs sample_loader sample_names) /\
    read_lines evs = present_lines sample_fs sample_loader sample_names.
Proof.
  apply (load_annotations_nonpositive_limit sample_decode sample_fs
           sample_loader "coco_train" sample_names 0 4).
  - vm_compute. reflexivity.
  - lia.
  - repeat constructor; vm_compute; discriminate.
  - vm_compute. repeat (constructor; [eexists; reflexivity|]). constructor.
  - vm_compute. lia.
Defined.

(** The sample run with limit 2, spelled out. *)
Example sample_run_limit_2 :
  let r := la_drive sample_decode sample_fs sample_loader 5
             (load_annotations "coco_train" 2) in
  caption <$> run_yielded r = ["first"; "second"] /\
  run_end r = Some None /\
  run_trace r =
    [ EvExists "data/coco_train_localized_narratives-00000-of-00004.jsonl" false;
      EvExists "data/coco_train_localized_narratives-00001-of-00004.jsonl" true;
      EvOpen "data/coco_train_localized_narratives-00001-of-00004.jsonl";
      EvReadLine "data/coco_train_localized_narratives-00001-of-00004.jsonl" "first";
      EvReadLine "data/coco_train_localized_narratives-00001-of-00004.jsonl" "second";
      EvClose "data/coco_train_localized_narratives-00001-of-00004.jsonl" ].
Proof. vm_compute. auto. Qed.

(** ** Downloading *)

Section DownloadFacts.
Variable self : DataLoader.

Lemma path_exists_true (fs : gmap string node) (path : string) :
  Os.path_exists fs path = true <-> is_Some (fs !! path).
Proof.
  unfold Os.path_exists. destruct (fs !! path); split; intros H;
    try reflexivity; try discriminate; eauto.
  destruct H as [? [=]].
Qed.

(** A file that is present is left alone: no download, whatever it holds. *)
Lemma download_one_file_present (remote : gmap string (list string))
    (fs : gmap string node) (filename : string) :
  Os.path_exists fs (_local_file self filename) = true ->
  _download_one_file remote self fs filename =
    ([EvExists (_local_file self filename) true;
      EvPrint ("Already downloaded: " +:+ filename)], Ok tt, fs).
Proof. intros Hexists. unfold _download_one_file. rewrite Hexists. reflexivity. Qed.

(** After a successful call the file is present, and what was there
    before is untouched. *)
Lemma download_one_file_ok (remote : gmap string (list string))
    (fs fs' : gmap string node) (filename : string) (evs : list event)
    (u : unit) :
  _download_one_file remote self fs filename = (evs, Ok u, fs') ->
  Os.path_exists fs' (_local_file self filename) = true /\
  forall path, Os.path_exists fs path = true -> fs' !! path = fs !! path.
Proof.
  unfold _download_one_file, Os.wget_download.
  destruct (Os.path_exists fs (_local_file self filename)) eqn:Hexists; simpl.
  - intros [= <- <- <-]. auto.
  - destruct (remote !! _); [|discriminate]. intros [= <- <- <-]. split.
    + apply path_exists_true. rewrite lookup_insert_eq. eauto.
    + intros path Hpath. apply lookup_insert_ne. congruence.
Qed.

Lemma download_files_ok (remote : gmap string (list string))
    (names : list string) :
  forall (fs fs' : gmap string node) (evs : list event) (u : unit),
    download_files remote self fs names = (evs, Ok u, fs') ->
    Forall (fun filename =>
              Os.path_exists fs' (_local_file self filename) = true) names /\
    forall path, Os.path_exists fs path = true -> fs' !! path = fs !! path.
Proof.
  induction names as [|filename rest IH]; intros fs fs' evs u; simpl.
  - intros [= <- <- <-]. auto.
  - destruct (_download_one_file remote self fs filename)
      as [[evs1 [u1|e]] fs1] eqn:Hone; [|discriminate].
    apply download_one_file_ok in Hone as [Hfile Hkeep1].
    destruct (download_files remote self fs1 rest)
      as [[evs2 [u2|e]] fs2] eqn:Hrest; simpl; [|discriminate].
    intros [= <- <- <-]. apply IH in Hrest as [Hpresent Hkeep2].
    assert (Hmono : forall path, Os.path_exists fs1 path = true ->
                                 Os.path_exists fs2 path = true).
    { intros path Hpath. unfold Os.path_exists.
      rewrite (Hkeep2 path Hpath). exact Hpath. }
    split; [constructor; auto|].
    intros path Hpath. rewrite Hkeep2, Hkeep1; [reflexivity|exact Hpath|].
    unfold Os.path_exists. rewrite (Hkeep1 path Hpath). exact Hpath.
Qed.

(** When every file is present, the loop downloads nothing and leaves
    the file system as it is, whatever the server holds. *)
Lemma download_files_present (remote : gmap string (list string))
    (fs : gmap string node) (names : list string) :
  Forall (fun filename =>
            Os.path_exists fs (_local_file self filename) = true) names ->
  exists evs,
    download_files remote self fs names = (evs, Ok tt, fs) /\
    downloads evs = [].
Proof.
  induction 1 as [|filename rest Hfile _ (evs & Hrest & Hnone)]; simpl.
  - exists []. auto.
  - rewrite (download_one_file_present _ _ _ Hfile), Hrest. simpl.
    eexists. split; [reflexivity|exact Hnone].
Qed.

Lemma makedirs_ok (fs fs' : gmap string node) (path : string) :
  Os.makedirs fs path = Ok fs' -> fs' !! path = Some Dir.
Proof.
  unfold Os.makedirs. destruct (String.eqb path ""); [discriminate|].
  destruct (fs !! path) as [[lines|]|] eqn:Hpath; [discriminate| |].
  - intros [= <-]. exact Hpath.
  - intros [= <-]. apply lookup_insert_eq.
Qed.

(** Once the directory has been created, creating it again changes
    nothing. *)
Lemma makedirs_again (fs fs1 fs2 : gmap string node) (path : string) :
  Os.makedirs fs path = Ok fs1 ->
  fs2 !! path = Some Dir ->
  Os.makedirs fs2 path = Ok fs2.
Proof.
  unfold Os.makedirs. destruct (String.eqb path ""); [discriminate|].
  intros _ ->. reflexivity.
Qed.

End DownloadFacts.

(** C7: when a call of [download_annotations] has succeeded, a second
    call with the same key and directory, on the file system the first
    one left, succeeds with no download and changes nothing, whatever
    the server now holds; and a file that is present is never fetched
    again nor looked into. *)
Theorem download_annotations_idempotent (self : DataLoader) (key : string) :
  (forall (remote remote' : gmap string (list string))
          (fs fs' : gmap string node) (evs : list event),
      download_annotations remote self fs key = (evs, Ok tt, fs') ->
      exists evs',
        download_annotations remote' self fs' key = (evs', Ok tt, fs') /\
        downloads evs' = [])
  /\ (forall (remote : gmap string (list string)) (fs : gmap string node)
             (filename : string),
         Os.path_exists fs (_local_file self filename) = true ->
         _download_one_file remote self fs filename =
           ([EvExists (_local_file self filename) true;
             EvPrint ("Already downloaded: " +:+ filename)], Ok tt, fs)).
Proof.
  split; [|intros remote fs filename; apply download_one_file_present].
  intros remote remote' fs fs' evs. unfold download_annotations.
  destruct (Os.makedirs fs (_local_root_dir self)) as [fs1|e] eqn:Hmk;
    [|discriminate].
  destruct (ef_rest (_expected_files key)) as [names|e]; [|discriminate].
  destruct (download_files remote self fs1 names)
    as [[evs1 [[]|e]] fs2] eqn:Hloop; simpl; [|discriminate].
  intros [= <- <-].
  pose proof (makedirs_ok _ _ _ Hmk) as Hroot.
  apply download_files_ok in Hloop as [Hpresent Hkeep].
  assert (Hroot' : fs2 !! _local_root_dir self = Some Dir).
  { rewrite Hkeep; [exact Hroot|]. apply path_exists_true. eauto. }
  pose proof (makedirs_again _ _ _ _ Hmk Hroot') as Hmk'.
  rewrite Hmk'.
  destruct (download_files_present self remote' fs2 names Hpresent)
    as (evs' & -> & Hnone).
  simpl. eexists. split; [reflexivity|]. exact Hnone.
Qed.

Lemma download_annotations_idempotent_witness :
  (exists evs',
      download_annotations ∅ sample_loader sample_downloaded "coco_val" =
        (evs', Ok tt, sample_downloaded) /\
      downloads evs' = [])
  /\ _download_one_file sample_remote sample_loader sample_downloaded
       "coco_val_localized_narratives.jsonl" =
       ([EvExists (_local_file sample_loader "coco_val_localized_narratives.jsonl") true;
         EvPrint ("Already downloaded: " +:+ "coco_val_localized_narratives.jsonl")],
        Ok tt, sample_downloaded).
Proof.
  split.
  - eapply (proj1 (download_annotations_idempotent sample_loader "coco_val")
              sample_remote ∅ ∅ sample_downloaded).
    vm_compute. reflexivity.
  - apply (proj2 (download_annotations_idempotent sample_loader "coco_val")).
    vm_compute. reflexivity.
Defined.

(** ** An unknown key *)

(** On an unknown key [download_annotations] has created the local
    directory by the time it raises: the claim that no directory is
    created before the error fails on an empty file system. *)
Lemma download_unknown_key_creates_directory :
  ("coco_test" ∉ dom _ANNOTATION_FILES) /\
  download_annotations sample_remote sample_loader ∅ "coco_test" =
    ([EvMakedirs "data"], Raise (unknown_key_error "coco_test"),
     {[ "data" := Dir ]}) /\
  download_annotations sample_remote sample_loader ∅ "coco_test" <>
    ([], Raise (unknown_key_error "coco_test"), ∅).
Proof.
  split; [apply not_elem_of_dom; vm_compute; reflexivity|].
  split; [vm_compute; reflexivity|].
  vm_compute. discriminate.
Qed.

(** C3, as the code has it: for a key that is not in the registry,
    [_expected_files] raises the unknown-key [ValueError] at its first
    resumption; so does [load_annotations], at its first resumption and
    before any event; [download_annotations] first creates the local
    directory, which may itself fail, and then raises the unknown-key
    error before any existence check, download or output. *)
Theorem unknown_key_raises (key : string) :
  key ∉ dom _ANNOTATION_FILES ->
  ef_next (_expected_files key) = (Raised (unknown_key_error key), EF_done)
  /\ (forall (decode : string -> result LocalizedNarrative)
             (fs : gmap string node) (self : DataLoader) (max : Z),
         la_next decode fs self (load_annotations key max) =
           ([], Raised (unknown_key_error key), LA_done))
  /\ (forall (remote : gmap string (list string)) (self : DataLoader)
             (fs : gmap string node),
         download_annotations remote self fs key =
           match Os.makedirs fs (_local_root_dir self) with
           | Ok fs' =>
               ([EvMakedirs (_local_root_dir self)],
                Raise (unknown_key_error key), fs')
           | Raise e => ([EvMakedirs (_local_root_dir self)], Raise e, fs)
           end).
Proof.
  intros Hkey%not_elem_of_dom. repeat split.
  - simpl. rewrite Hkey. reflexivity.
  - intros decode fs self max. simpl. rewrite Hkey. reflexivity.
  - intros remote self fs. unfold download_annotations. simpl.
    rewrite Hkey. destruct (Os.makedirs fs (_local_root_dir self)); reflexivity.
Qed.

Lemma unknown_key_raises_witness :
  ef_next (_expected_files "coco_test") =
    (Raised (unknown_key_error "coco_test"), EF_done)
  /\ (forall (decode : string -> result LocalizedNarrative)
             (fs : gmap string node) (self : DataLoader) (max : Z),
         la_next decode fs self (load_annotations "coco_test" max) =
           ([], Raised (unknown_key_error "coco_test"), LA_done))
  /\ (forall (remote : gmap string (list string)) (self : DataLoader)
             (fs : gmap string node),
         download_annotations remote self fs "coco_test" =
           match Os.makedirs fs (_local_root_dir self) with
           | Ok fs' =>
               ([EvMakedirs (_local_root_dir self)],
                Raise (unknown_key_error "coco_test"), fs')
           | Raise e => ([EvMakedirs (_local_root_dir self)], Raise e, fs)
           end).
Proof.
  apply (unknown_key_raises "coco_test").
  apply not_elem_of_dom. vm_compute. reflexivity.
Defined.

(** * Further properties *)

(** ** The recording URL on a path of the usual form *)

Section CanonicalPath.
Import Re ReLang ReFacts.

Lemma all_match_append (a : atom) (w1 w2 : string) :
  all_match a (w1 +:+ w2) = all_match a w1 && all_match a w2.
Proof.
  induction w1 as [|c w1 IH]; [reflexivity|].
  rewrite append_cons. simpl. rewrite IH. apply andb_assoc.
Qed.

(** A run of [a] followed by a character that is not of [a] can be read
    off a string in one way only. *)
Lemma terminated_run_unique (a : atom) (c : ascii) (w1 w2 r1 r2 : string) :
  all_match a w1 = true -> all_match a w2 = true ->
  atom_matches a c = false ->
  w1 +:+ String c r1 = w2 +:+ String c r2 ->
  w1 = w2 /\ r1 = r2.
Proof.
  intros Hw1 Hw2 Hc. revert w2 Hw2.
  induction w1 as [|c1 w1 IH]; intros [|c2 w2] Hw2 Heq.
  - injection Heq as ->. auto.
  - rewrite append_nil_l, append_cons in Heq. injection Heq as <- _.
    simpl in Hw2. rewrite Hc in Hw2. discriminate.
  - rewrite append_nil_l, append_cons in Heq. injection Heq as -> _.
    simpl in Hw1. rewrite Hc in Hw1. discriminate.
  - rewrite !append_cons in Heq. injection Heq as -> Heq.
    simpl in Hw1, Hw2. apply andb_prop in Hw1 as [_ Hw1], Hw2 as [_ Hw2].
    destruct (IH Hw1 w2 Hw2 Heq) as [-> ->]. auto.
Qed.

(** The same from the right: what follows the last occurrence of a
    character that is not of [a] is determined. *)
Lemma run_after_last_unique (a : atom) (c : ascii) (u1 u2 d1 d2 : string) :
  all_match a d1 = true -> all_match a d2 = true ->
  atom_matches a c = false ->
  u1 +:+ String c d1 = u2 +:+ String c d2 ->
  u1 = u2 /\ d1 = d2.
Proof.
  intros Hd1 Hd2 Hc. revert u2.
  assert (Hno : forall u d, all_match a (u +:+ String c d) = false).
  { intros u d. rewrite all_match_append. simpl. rewrite Hc.
    apply andb_false_r. }
  induction u1 as [|c1 u1 IH]; intros [|c2 u2] Heq.
  - injection Heq as ->. auto.
  - rewrite append_nil_l, append_cons in Heq. injection Heq as _ ->.
    rewrite Hno in Hd1. discriminate.
  - rewrite append_nil_l, append_cons in Heq. injection Heq as _ <-.
    rewrite Hno in Hd2. discriminate.
  - rewrite !append_cons in Heq. injection Heq as -> Heq.
    destruct (IH u2 Heq) as [-> ->]. auto.
Qed.

Lemma search_here (r : regex) (s : string) (m : captures) :
  match_at r s = Some m -> search r s = Some m.
Proof. intros Hm. destruct s; simpl; rewrite Hm; reflexivity. Qed.

Lemma digits_contain_no_underscore (c : ascii) :
  c = "_"%char -> atom_matches (Range "0" "9") c = false.
Proof. intros ->. reflexivity. Qed.

(** On a stored path that is [<split>/<name>_<digits>_<serial>.<rest>]
    from its first character on, the match is found at the start and its
    groups are the split and the digits before the last underscore. *)
Lemma recording_search_canonical (split_id name image_id serial rest : string) :
  run_of Word split_id -> run_of Word name ->
  run_of (Range "0" "9") image_id -> run_of (Range "0" "9") serial ->
  search recording_pattern
    (split_id +:+ "/" +:+ name +:+ "_" +:+ image_id +:+ "_" +:+ serial
     +:+ "." +:+ rest)
  = Some [(2%nat, image_id); (1%nat, split_id)].
Proof.
  intros Hsplit Hname Himage Hserial.
  set (stored := split_id +:+ "/" +:+ name +:+ "_" +:+ image_id +:+ "_"
                 +:+ serial +:+ "." +:+ rest).
  assert (Hsome : is_Some (match_at recording_pattern stored)).
  { unfold match_at, stored.
    replace (split_id +:+ "/" +:+ name +:+ "_" +:+ image_id +:+ "_"
             +:+ serial +:+ "." +:+ rest)
      with ((split_id +:+ "/" +:+ name +:+ "_" +:+ image_id +:+ "_"
             +:+ serial +:+ ".") +:+ rest)
      by (rewrite !append_assoc; reflexivity).
    eapply run_complete; [|eauto].
    apply recording_pattern_matches. eauto 10. }
  destruct Hsome as [m Hm]. apply search_here. rewrite Hm. f_equal.
  unfold match_at in Hm.
  apply run_sound in Hm as (w & rest' & cs' & Hstored & Hw & [= <-]).
  apply recording_pattern_matches in Hw
    as (split' & name' & image' & serial' & -> & Hsplit' & Hname' & Himage'
        & Hserial' & ->).
  unfold stored in Hstored. rewrite !append_assoc in Hstored.
  destruct Hsplit as [_ Hsplit], Hsplit' as [_ Hsplit'].
  destruct (terminated_run_unique Word "/" _ _ _ _ Hsplit Hsplit' eq_refl Hstored)
    as [<- Htail].
  assert (Hword : forall n i s,
             run_of Word n -> run_of (Range "0" "9") i ->
             run_of (Range "0" "9") s ->
             all_match Word (n +:+ "_" +:+ i +:+ "_" +:+ s) = true).
  { intros n i s [_ Hn] Hi%digits_are_word_characters
           Hs%digits_are_word_characters.
    destruct Hi as [_ Hi], Hs as [_ Hs].
    rewrite !all_match_append, Hn, Hi, Hs. reflexivity. }
  assert (Hruns : name +:+ "_" +:+ image_id +:+ "_" +:+ serial
                  = name' +:+ "_" +:+ image' +:+ "_" +:+ serial').
  { apply (terminated_run_unique Word "." _ _ rest rest');
      [apply Hword; assumption..|reflexivity|].
    rewrite !append_assoc. exact Htail. }
  destruct Himage as [_ Himage], Himage' as [_ Himage'].
  destruct Hserial as [_ Hserial], Hserial' as [_ Hserial'].
  assert (Hlast : (name +:+ "_" +:+ image_id) +:+ String "_" serial
                  = (name' +:+ "_" +:+ image') +:+ String "_" serial').
  { rewrite !append_assoc. exact Hruns. }
  apply (run_after_last_unique (Range "0" "9") "_") in Hlast
    as [Hfront _]; [|assumption..|reflexivity].
  apply (run_after_last_unique (Range "0" "9") "_") in Hfront
    as [_ ->]; [|assumption..|reflexivity].
  reflexivity.
Qed.

End CanonicalPath.

(** X1: for a record of a family whose path is rewritten, a stored path
    of the form [<split>/<name>_<digits>_<serial>.<rest>] resolves to
    the recordings root followed by
    [/<split>/<split>_<digits padded to 16>_<annotator_id>.ogg],
    whatever follows the dot. *)
Theorem voice_recording_url_canonical (self : LocalizedNarrative)
    (split_id name image_id serial rest : string) :
  needs_path_fix self = true ->
  voice_recording self =
    split_id +:+ "/" +:+ name +:+ "_" +:+ image_id +:+ "_" +:+ serial
    +:+ "." +:+ rest ->
  ReLang.run_of Re.Word split_id ->
  ReLang.run_of Re.Word name ->
  ReLang.run_of (Re.Range "0" "9") image_id ->
  ReLang.run_of (Re.Range "0" "9") serial ->
  voice_recording_url self =
    Ok (_RECORDINGS_ROOT_URL +:+ "/" +:+ split_id +:+ "/" +:+ split_id +:+ "_"
        +:+ zfill 16 image_id +:+ "_" +:+ str_of_int (annotator_id self)
        +:+ ".ogg").
Proof.
  intros Hfix Hstored Hsplit Hname Himage Hserial.
  unfold voice_recording_url. rewrite Hfix, Hstored.
  rewrite recording_search_canonical by assumption. reflexivity.
Qed.

Lemma voice_recording_url_canonical_witness :
  voice_recording_url
    {| dataset_id := "ADE20k"; image_id := "12"; annotator_id := 5;
       caption := ""; timed_caption := []; traces := [];
       voice_recording := "train/ade20k_train_00000012_41.ogg" |}
  = Ok (_RECORDINGS_ROOT_URL +:+ "/" +:+ "train" +:+ "/" +:+ "train" +:+ "_"
        +:+ zfill 16 "00000012" +:+ "_" +:+ str_of_int 5 +:+ ".ogg").
Proof.
  apply (voice_recording_url_canonical
           {| dataset_id := "ADE20k"; image_id := "12"; annotator_id := 5;
              caption := ""; timed_caption := []; traces := [];
              voice_recording := "train/ade20k_train_00000012_41.ogg" |}
           "train" "ade20k_train" "00000012" "41" "ogg").
  - reflexivity.
  - reflexivity.
  - split; [discriminate|reflexivity].
  - split; [discriminate|reflexivity].
  - split; [discriminate|reflexivity].
  - split; [discriminate|reflexivity].
Defined.

(** X2: the property raises exactly when the record is of a family whose
    path is rewritten and the shape of the pattern occurs nowhere in the
    stored path; the exception is then [AttributeError], and in every
    other case a URL under the recordings root is returned. *)
Theorem voice_recording_url_raises_iff (self : LocalizedNarrative) :
  (voice_recording_url self = Raise AttributeError <->
   needs_path_fix self = true /\
   ~ well_formed_recording_path (voice_recording self))
  /\ (forall e, voice_recording_url self = Raise e -> e = AttributeError)
  /\ ((needs_path_fix self = false \/
       well_formed_recording_path (voice_recording self)) ->
      exists path, voice_recording_url self =
                     Ok (_RECORDINGS_ROOT_URL +:+ "/" +:+ path)).
Proof.
  destruct (needs_path_fix self) eqn:Hfix.
  - destruct (voice_recording_url_rewritten self Hfix)
      as [(split_id & image_id & Hshape & Hurl)|[Hbad Hurl]]; rewrite Hurl.
    + split; [|split].
      * split; [discriminate|]. intros [_ Hbad]. exfalso. apply Hbad.
        exists split_id, image_id. exact Hshape.
      * discriminate.
      * intros _. eexists. reflexivity.
    + split; [|split].
      * split; auto.
      * intros e [= <-]. reflexivity.
      * intros [Hdefault|Hgood]; [discriminate|contradiction].
  - unfold voice_recording_url. rewrite Hfix. simpl. split; [|split].
    + split; [discriminate|]. intros [Hno _]. discriminate.
    + discriminate.
    + intros _. eexists. reflexivity.
Qed.

(** ** The textual representation, when it succeeds *)

Lemma length_substring_0 (n : nat) (s : string) :
  String.length (String.substring 0 n s) = Nat.min n (String.length s).
Proof.
  revert n. induction s as [|c s IH]; intros [|n]; simpl; try reflexivity.
  rewrite IH. reflexivity.
Qed.

(** X3: [__repr__] returns a string exactly when [timed_caption] has a
    first element and [traces] has a first trace with a first point; it
    raises nothing but [IndexError]. *)
Theorem repr_returns_iff
    (str_utterance : TimedUtterance -> string)
    (str_point : TimedPoint -> string) (self : LocalizedNarrative) :
  ((exists text, __repr__ str_utterance str_point self = Ok text) <->
   (exists u us p ps others,
       timed_caption self = u :: us /\ traces self = (p :: ps) :: others))
  /\ (forall e, __repr__ str_utterance str_point self = Raise e ->
                e = IndexError).
Proof.
  unfold __repr__.
  destruct (timed_caption self) as [|u us]; simpl.
  { split; [|intros e [= <-]; reflexivity].
    split; [intros [text [=]]|intros (? & ? & ? & ? & ? & [=] & _)]. }
  destruct (traces self) as [|[|p ps] others]; simpl.
  - split; [|intros e [= <-]; reflexivity].
    split; [intros [text [=]]|intros (? & ? & ? & ? & ? & _ & [=])].
  - split; [|intros e [= <-]; reflexivity].
    split; [intros [text [=]]|intros (? & ? & ? & ? & ? & _ & [=])].
  - split; [|discriminate].
    split; [intros _; exists u, us, p, ps, others; auto|eauto].
Qed.

(** X4: when it succeeds, the representation shows the first utterance
    and the first point of the first trace only, and the caption whole
    when it has at most 63 characters, otherwise its first 60 characters
    followed by three dots: the caption shown never exceeds 63
    characters. *)
Theorem repr_shows_truncated_caption
    (str_utterance : TimedUtterance -> string)
    (str_point : TimedPoint -> string) (self : LocalizedNarrative)
    (u : TimedUtterance) (us : list TimedUtterance)
    (p : TimedPoint) (ps : list TimedPoint) (others : list (list TimedPoint)) :
  timed_caption self = u :: us ->
  traces self = (p :: ps) :: others ->
  __repr__ str_utterance str_point self =
    Ok ("{" +:+ nl
        +:+ " dataset_id: " +:+ dataset_id self +:+ "," +:+ nl
        +:+ " image_id: " +:+ image_id self +:+ "," +:+ nl
        +:+ " annotator_id: " +:+ str_of_int (annotator_id self) +:+ "," +:+ nl
        +:+ " caption: " +:+ truncated_caption (caption self) +:+ "," +:+ nl
        +:+ " timed_caption: [" +:+ str_utterance u +:+ ", ...]," +:+ nl
        +:+ " traces: [[" +:+ str_point p +:+ ", ...], ...]," +:+ nl
        +:+ " voice_recording: " +:+ voice_recording self +:+ nl
        +:+ "}")
  /\ (String.length (truncated_caption (caption self)) <= 63)%nat
  /\ ((String.length (caption self) <= 63)%nat ->
      truncated_caption (caption self) = caption self)
  /\ ((63 < String.length (caption self))%nat ->
      truncated_caption (caption self) =
        String.substring 0 60 (caption self) +:+ "..." /\
      String.length (truncated_caption (caption self)) = 63%nat).
Proof.
  intros Hcaption Htraces. split.
  { unfold __repr__. rewrite Hcaption, Htraces. reflexivity. }
  unfold truncated_caption, slice_to.
  destruct (Nat.ltb_spec 63 (String.length (caption self))) as [Hlong|Hshort].
  - assert (Hlen : String.length (String.substring 0 60 (caption self) +:+ "...")
                   = 63%nat).
    { rewrite ReFacts.length_append, length_substring_0.
      rewrite Nat.min_l by lia. reflexivity. }
    split; [lia|]. split; [lia|]. intros _. split; [reflexivity|exact Hlen].
  - split; [lia|]. split; [reflexivity|]. lia.
Qed.

Lemma repr_shows_truncated_caption_witness :
  String.length
    (truncated_caption
       "a long caption that goes on and on, well beyond sixty-three characters")
  = 63%nat.
Proof.
  apply (repr_shows_truncated_caption (fun u => utterance u) (fun _ => "p")
           {| dataset_id := "coco_val"; image_id := "1"; annotator_id := 3;
              caption := "a long caption that goes on and on, well beyond sixty-three characters";
              timed_caption := [mkTimedUtterance "a" 0 1];
              traces := [[mkTimedPoint 0 0 0]]; voice_recording := "a/b.ogg" |}
           (mkTimedUtterance "a" 0 1) [] (mkTimedPoint 0 0 0) [] []).
  - reflexivity.
  - reflexivity.
  - vm_compute. lia.
Defined.

(** ** What every resumption of [load_annotations] keeps *)

Section LoaderInvariants.
Variable decode : string -> result LocalizedNarrative.
Variable fs : gmap string node.
Variable self : DataLoader.

Lemma closed_app (evs1 evs2 : list event) :
  closed (evs1 ++ evs2) = closed evs1 ++ closed evs2.
Proof. apply omap_app. Qed.

Lemma checked_app (evs1 evs2 : list event) :
  checked (evs1 ++ evs2) = checked evs1 ++ checked evs2.
Proof. apply omap_app. Qed.

Lemma step_ok_after (evs0 : list event) (names0 names held0 held : list string)
    (num max : Z)
    (step : list event * outcome LocalizedNarrative * la_state) :
  Forall (fun ev => local_read ev = true) evs0 ->
  read_lines evs0 = [] ->
  held0 ++ opened evs0 = closed evs0 ++ held ->
  checked evs0 ++ (_local_file self <$> names) = _local_file self <$> names0 ->
  step_ok self names held num max step ->
  step_ok self names0 held0 num max (after evs0 step).
Proof.
  intros Hlocal Hquiet Hheld Hchecked.
  destruct step as [[evs out] st']. unfold step_ok, after.
  intros [Hevs Hout]. split; [apply Forall_app; auto|].
  assert (Hhandles : forall tail,
             held ++ opened evs = closed evs ++ tail ->
             held0 ++ opened (evs0 ++ evs) = closed (evs0 ++ evs) ++ tail).
  { intros tail Htail. rewrite opened_app, closed_app, app_assoc, Hheld.
    rewrite <- !app_assoc. f_equal. exact Htail. }
  assert (Hprefix : checked evs `prefix_of` (_local_file self <$> names) ->
                    checked (evs0 ++ evs) `prefix_of`
                      (_local_file self <$> names0)).
  { intros Hpre. rewrite checked_app, <- Hchecked.
    apply prefix_app. exact Hpre. }
  destruct out as [y| |e].
  - destruct Hout as (files & path & lines & -> & Hopen & Hcheck).
    exists files, path, lines. split; [reflexivity|]. split; [auto|].
    rewrite checked_app, <- app_assoc, Hcheck. exact Hchecked.
  - destruct Hout as (-> & Hopen & Hcheck). split; [reflexivity|].
    split; [|auto]. rewrite <- (app_nil_r (closed _)). apply Hhandles.
    rewrite app_nil_r. exact Hopen.
  - destruct Hout as (-> & Hcheck & leak & Hopen & Hleak & Hreads).
    split; [reflexivity|]. split; [auto|]. exists leak.
    split; [auto|]. split; [exact Hleak|].
    intros Hnone. rewrite read_lines_app, Hquiet. auto.
Qed.

Lemma la_lines_step_ok (names : list string) (num max : Z) (files : ff_state)
    (path : string) (lines : list string)
    (next_file : list event * outcome LocalizedNarrative * la_state) :
  (forall lines', la_names (LA_yielded num max files path lines') = names) ->
  step_ok self names [] num max next_file ->
  step_ok self names [path] num max
    (la_lines decode max next_file num files path lines).
Proof.
  intros Hnames Hnext. destruct lines as [|line lines']; cbn [la_lines].
  - apply (step_ok_after _ names names [path] []);
      [repeat constructor|reflexivity|reflexivity|reflexivity|exact Hnext].
  - destruct (decode line) as [narrative|e]; cbn [step_ok].
    + split; [repeat constructor|]. exists files, path, lines'.
      split; [reflexivity|]. split; [reflexivity|].
      rewrite Hnames. reflexivity.
    + split; [repeat constructor|]. split; [reflexivity|].
      split; [apply prefix_nil|]. exists [path].
      split; [reflexivity|]. split; [simpl; lia|discriminate].
Qed.

Lemma la_files_step_ok (num max : Z) (names : list string) :
  step_ok self names [] num max (la_files decode fs self max num names).
Proof.
  induction names as [|filename rest IH]; cbn [la_files].
  - split; [constructor|]. split; [reflexivity|].
    split; [reflexivity|apply prefix_nil].
  - destruct (Os.path_exists fs (_local_file self filename)).
    + apply (step_ok_after _ (filename :: rest) rest []
               [_local_file self filename]);
        [repeat constructor|reflexivity|reflexivity|reflexivity|].
      destruct (Os.open_rb fs (_local_file self filename)) as [lines|e].
      * apply la_lines_step_ok; [reflexivity|exact IH].
      * split; [constructor|]. split; [reflexivity|].
        split; [apply prefix_nil|]. exists [_local_file self filename].
        split; [reflexivity|]. split; [simpl; lia|discriminate].
    + apply (step_ok_after _ (filename :: rest) rest [] []);
        [repeat constructor|reflexivity|reflexivity|reflexivity|exact IH].
Qed.

Lemma la_enter_step_ok (num max : Z) (inner : ef_state) :
  step_ok self
    (match ef_rest inner with Ok names => names | Raise _ => [] end)
    [] num max (la_enter decode fs self max num (FF inner)).
Proof.
  unfold la_enter. destruct (ef_rest inner) as [names|e].
  - apply la_files_step_ok.
  - split; [constructor|]. split; [reflexivity|].
    split; [apply prefix_nil|]. exists []. auto.
Qed.

Lemma la_next_step_ok (st : la_state) :
  step_ok self (la_names st) (la_held st) (la_count st) (la_max st)
    (la_next decode fs self st).
Proof.
  destruct st as [key max|num max [inner] path lines|]; cbn [la_next].
  - apply (la_enter_step_ok 0 max (_expected_files key)).
  - cbn [la_names la_held la_count la_max].
    destruct (num + 1 =? max).
    + split; [repeat constructor|]. split; [reflexivity|].
      split; [reflexivity|apply prefix_nil].
    + apply la_lines_step_ok; [reflexivity|]. apply la_enter_step_ok.
  - split; [constructor|]. split; [reflexivity|].
    split; [reflexivity|apply prefix_nil].
Qed.

(** The same for a run of any length. *)
Lemma la_drive_ok (fuel : nat) :
  forall st : la_state,
    let r := la_drive decode fs self fuel st in
    Forall (fun ev => local_read ev = true) (run_trace r) /\
    checked (run_trace r) `prefix_of` (_local_file self <$> la_names st) /\
    match run_end r with
    | None =>
        la_held st ++ opened (run_trace r)
        = closed (run_trace r) ++ la_held (run_state r)
    | Some None =>
        run_state r = LA_done /\
        la_held st ++ opened (run_trace r) = closed (run_trace r)
    | Some (Some _) =>
        run_state r = LA_done /\
        exists leak,
          la_held st ++ opened (run_trace r) = closed (run_trace r) ++ leak /\
          (length leak <= 1)%nat
    end.
Proof.
  induction fuel as [|fuel IH]; intros st; cbn [la_drive].
  - simpl. split; [constructor|]. split; [apply prefix_nil|].
    rewrite app_nil_r. reflexivity.
  - pose proof (la_next_step_ok st) as Hstep.
    destruct (la_next decode fs self st) as [[evs [y| |e]] st'];
      destruct Hstep as [Hlocal Hout]; cbn [run_trace run_end run_state].
    + destruct Hout as (files & path & lines & -> & Hopen & Hcheck).
      specialize (IH (LA_yielded (la_count st) (la_max st) files path lines)).
      destruct IH as (Hlocal' & Hcheck' & Hend).
      set (r := la_drive decode fs self fuel
                  (LA_yielded (la_count st) (la_max st) files path lines)) in *.
      cbn [la_held] in Hend.
      assert (Hhandles : forall tail,
                 [path] ++ opened (run_trace r) = closed (run_trace r) ++ tail ->
                 la_held st ++ opened (evs ++ run_trace r)
                 = closed (evs ++ run_trace r) ++ tail).
      { intros tail Htail. rewrite opened_app, closed_app, app_assoc, Hopen.
        rewrite <- !app_assoc. f_equal. exact Htail. }
      split; [apply Forall_app; auto|]. split.
      { rewrite checked_app, <- Hcheck. apply prefix_app. exact Hcheck'. }
      destruct (run_end r) as [[e|]|].
      * destruct Hend as (Hdone & leak & Hleak & Hlen).
        split; [exact Hdone|]. exists leak. auto.
      * destruct Hend as [Hdone Hbal]. split; [exact Hdone|].
        rewrite <- (app_nil_r (closed _)). apply Hhandles.
        rewrite app_nil_r. exact Hbal.
      * apply Hhandles. exact Hend.
    + destruct Hout as (-> & Hopen & Hcheck). auto.
    + destruct Hout as (-> & Hcheck & leak & Hopen & Hlen & _).
      split; [exact Hlocal|]. split; [exact Hcheck|].
      split; [reflexivity|]. exists leak. auto.
Qed.

(** A resumption that yields uses up one unit of the allowance. *)
Lemma la_next_spends (st st' : la_state) (evs : list event)
    (y : LocalizedNarrative) (a : nat) :
  la_next decode fs self st = (evs, Yielded y, st') ->
  allowance st = Some a ->
  exists a', a = S a' /\ allowance st' = Some a'.
Proof.
  intros Hnext Hallow. pose proof (la_next_step_ok st) as Hstep.
  rewrite Hnext in Hstep.
  destruct Hstep as [_ (files & path & lines & -> & _)].
  destruct st as [key max|num max files0 path0 lines0|];
    cbn [la_count la_max allowance] in *.
  - destruct (Z.ltb_spec 0 max); [|discriminate]. injection Hallow as <-.
    exists (Z.to_nat (max - 1)). split; [lia|]. change (0 + 1) with 1.
    destruct (Z.ltb_spec 1 max), (Z.eqb_spec 1 max); try lia;
      try reflexivity. f_equal. lia.
  - cbn [la_next] in Hnext.
    destruct (Z.eqb_spec (num + 1) max) as [Heq|Hne]; [discriminate|].
    destruct (Z.ltb_spec (num + 1) max); [|discriminate].
    injection Hallow as <-. exists (Z.to_nat (max - (num + 1 + 1))).
    split; [lia|].
    destruct (Z.ltb_spec (num + 1 + 1) max), (Z.eqb_spec (num + 1 + 1) max);
      try lia; try reflexivity. f_equal. lia.
  - discriminate.
Qed.

Lemma la_drive_bound (fuel : nat) :
  forall (st : la_state) (a : nat),
    allowance st = Some a ->
    (length (run_yielded (la_drive decode fs self fuel st)) <= a)%nat.
Proof.
  induction fuel as [|fuel IH]; intros st a Hallow; cbn [la_drive].
  - simpl. lia.
  - destruct (la_next decode fs self st) as [[evs [y| |e]] st'] eqn:Hnext;
      cbn [run_yielded]; try (simpl; lia).
    destruct (la_next_spends _ _ _ _ _ Hnext Hallow) as (a' & -> & Hallow').
    specialize (IH st' a' Hallow'). simpl. lia.
Qed.

(** A generator that is still suspended after at least one resumption
    holds a file open. *)
Lemma la_drive_suspended (fuel : nat) :
  forall st : la_state,
    run_end (la_drive decode fs self (S fuel) st) = None ->
    exists path, la_held (run_state (la_drive decode fs self (S fuel) st)) = [path].
Proof.
  induction fuel as [|fuel IH]; intros st.
  - cbn [la_drive]. pose proof (la_next_step_ok st) as Hstep.
    destruct (la_next decode fs self st) as [[evs [y| |e]] st'];
      cbn [run_end run_state]; [|discriminate..].
    destruct Hstep as [_ (files & path & lines & -> & _)]. eauto.
  - intros Hend. change (la_drive decode fs self (S (S fuel)) st)
      with (match la_next decode fs self st with
            | (evs, Yielded narrative, st') =>
                let r := la_drive decode fs self (S fuel) st' in
                mkRun (evs ++ run_trace r) (narrative :: run_yielded r)
                  (run_end r) (run_state r)
            | (evs, StopIteration, st') => mkRun evs [] (Some None) st'
            | (evs, Raised e, st') => mkRun evs [] (Some (Some e)) st'
            end) in *.
    destruct (la_next decode fs self st) as [[evs [y| |e]] st'];
      [|discriminate..].
    cbn [run_end run_state] in *. apply IH. exact Hend.
Qed.

End LoaderInvariants.

(** ** What [load_annotations] never does, and what it keeps *)

(** X5: whatever the key, the limit, the files and their lines,
    [load_annotations] only checks for, opens, reads and closes local
    files: it creates no directory, downloads nothing and prints
    nothing. *)
Theorem load_annotations_reads_only
    (decode : string -> result LocalizedNarrative) (fs : gmap string node)
    (self : DataLoader) (key : string) (max : Z) (fuel : nat) :
  Forall (fun ev => local_read ev = true)
    (run_trace (la_drive decode fs self fuel (load_annotations key max))).
Proof. apply la_drive_ok. Qed.

(** X6: a run of [load_annotations] that ends normally has closed every
    file it opened, in the order it opened them; while the generator is
    suspended after a record, exactly the file it is reading is open;
    after an exception at most one file is left open. *)
Theorem load_annotations_closes_files
    (decode : string -> result LocalizedNarrative) (fs : gmap string node)
    (self : DataLoader) (key : string) (max : Z) (fuel : nat) :
  let r := la_drive decode fs self (S fuel) (load_annotations key max) in
  match run_end r with
  | Some None => opened (run_trace r) = closed (run_trace r)
  | None =>
      exists path, opened (run_trace r) = closed (run_trace r) ++ [path]
  | Some (Some _) =>
      exists leak,
        opened (run_trace r) = closed (run_trace r) ++ leak /\
        (length leak <= 1)%nat
  end.
Proof.
  intros r.
  pose proof (la_drive_ok decode fs self (S fuel) (load_annotations key max))
    as (_ & _ & Hend).
  pose proof (la_drive_suspended decode fs self fuel
                (load_annotations key max)) as Hheld.
  fold r in Hend, Hheld. destruct (run_end r) as [[e|]|].
  - destruct Hend as (_ & leak & Hleak & Hlen). exists leak. auto.
  - destruct Hend as [_ Hbal]. exact Hbal.
  - destruct (Hheld eq_refl) as [path Hpath]. exists path.
    rewrite <- Hpath. exact Hend.
Qed.

(** X7: for a known key, the paths whose existence a run checks are the
    local paths of the first expected names, in the order of the
    registry and one check each; nothing else is looked for. *)
Theorem load_annotations_checks_in_order
    (decode : string -> result LocalizedNarrative) (fs : gmap string node)
    (self : DataLoader) (key : string) (names : list string) (max : Z)
    (fuel : nat) :
  _ANNOTATION_FILES !! key = Some names ->
  checked (run_trace (la_drive decode fs self fuel (load_annotations key max)))
    `prefix_of` (_local_file self <$> names).
Proof.
  intros Hkey.
  pose proof (la_drive_ok decode fs self fuel (load_annotations key max))
    as (_ & Hchecked & _).
  simpl in Hchecked. rewrite Hkey in Hchecked. exact Hchecked.
Qed.

Lemma load_annotations_checks_in_order_witness :
  checked (run_trace (la_drive sample_decode sample_fs sample_loader 2
                        (load_annotations "coco_train" 2)))
    `prefix_of` (_local_file sample_loader <$> sample_names).
Proof.
  apply (load_annotations_checks_in_order sample_decode sample_fs
           sample_loader "coco_train" sample_names 2 2).
  vm_compute. reflexivity.
Defined.

(** X8: the generator is single-pass: once a run has ended, normally or
    with an exception, every further resumption ends at once, with no
    record and no event. *)
Theorem load_annotations_single_pass
    (decode : string -> result LocalizedNarrative) (fs : gmap string node)
    (self : DataLoader) (st : la_state) (fuel more : nat) :
  run_end (la_drive decode fs self fuel st) <> None ->
  la_drive decode fs self (S more)
    (run_state (la_drive decode fs self fuel st))
  = mkRun [] [] (Some None) LA_done.
Proof.
  intros Hended.
  pose proof (la_drive_ok decode fs self fuel st) as (_ & _ & Hend).
  destruct (run_end (la_drive decode fs self fuel st)) as [[e|]|];
    [| |congruence].
  - destruct Hend as [-> _]. reflexivity.
  - destruct Hend as [-> _]. reflexivity.
Qed.

Lemma load_annotations_single_pass_witness :
  la_drive sample_decode sample_fs sample_loader 1
    (run_state (la_drive sample_decode sample_fs sample_loader 5
                  (load_annotations "coco_train" 2)))
  = mkRun [] [] (Some None) LA_done.
Proof.
  apply (load_annotations_single_pass sample_decode sample_fs sample_loader
           (load_annotations "coco_train" 2) 5 0).
  vm_compute. discriminate.
Defined.

(** X9: with a positive limit, a run never yields more records than
    the limit, whatever the files hold and however far it is driven. *)
Theorem load_annotations_never_exceeds_limit
    (decode : string -> result LocalizedNarrative) (fs : gmap string node)
    (self : DataLoader) (key : string) (max : Z) (fuel : nat) :
  0 < max ->
  Z.of_nat (length (run_yielded
                      (la_drive decode fs self fuel (load_annotations key max))))
  <= max.
Proof.
  intros Hpos.
  pose proof (la_drive_bound decode fs self fuel (load_annotations key max)
                (Z.to_nat max)) as Hbound.
  simpl in Hbound. destruct (Z.ltb_spec 0 max); [|lia].
  specialize (Hbound eq_refl). lia.
Qed.

Lemma load_annotations_never_exceeds_limit_witness :
  Z.of_nat (length (run_yielded
                      (la_drive sample_decode sample_fs sample_loader 7
                         (load_annotations "coco_train" 1))))
  <= 1.
Proof.
  apply (load_annotations_never_exceeds_limit sample_decode sample_fs
           sample_loader "coco_train" 1 7).
  lia.
Defined.

(** ** A line that does not decode *)

(** X10: for a known key whose present files are regular, when the first
    line that does not decode comes before the limit, the run yields the
    records of the lines before it and then raises what the decoder
    raised; the bad line is the last one read, and the file it was read
    from is left open: one opened file is never closed. *)
Theorem load_annotations_decode_failure
    (decode : string -> result LocalizedNarrative) (fs : gmap string node)
    (self : DataLoader) (key : string) (names good rest : list string)
    (bad : string) (e : exn) (max : Z) (fuel : nat) :
  _ANNOTATION_FILES !! key = Some names ->
  regular_files fs self names ->
  present_lines fs self names = good ++ bad :: rest ->
  Forall (decodable decode) good ->
  decode bad = Raise e ->
  max <= 0 \/ Z.of_nat (length good) < max ->
  (length good < fuel)%nat ->
  exists evs path,
    la_drive decode fs self fuel (load_annotations key max) =
      mkRun evs (decoded decode good) (Some (Some e)) LA_done /\
    read_lines evs = good ++ [bad] /\
    opened evs = closed evs ++ [path].
Proof.
  intros Hkey Hreg Hlines Hgood Hbad Hlimit Hfuel.
  pose proof (la_pending_start fs self key names max Hkey) as Hpending.
  rewrite Hlines in Hpending.
  assert (Htake : take (length good) (good ++ bad :: rest) = good).
  { rewrite take_app_length. reflexivity. }
  assert (Hallowed : forall a, allowance (load_annotations key max) = Some a ->
                               (length good < a)%nat).
  { simpl. destruct (Z.ltb_spec 0 max); [|discriminate].
    intros a [= <-]. lia. }
  destruct (la_drive_prefix decode fs self (length good)
              (load_annotations key max))
    as (evs & st & Hrun & Hread & Hreg' & Hpend & Hallow).
  { exists names. auto. }
  { rewrite Hpending, Htake. exact Hgood. }
  { rewrite Hpending, length_app. simpl. lia. }
  { intros a Ha. specialize (Hallowed a Ha). lia. }
  rewrite Hpending, Htake in Hrun, Hread.
  rewrite Hpending, drop_app_length in Hpend.
  destruct (la_next_reads_first decode fs self st Hreg')
    as (num & max' & Hstep & _).
  { rewrite Hallow. destruct (allowance (load_annotations key max)) as [a|];
      [|discriminate].
    specialize (Hallowed a eq_refl). simpl. intros [= Hzero]. lia. }
  rewrite Hpend in Hstep. destruct Hstep as (evs' & Hread' & Hstep).
  rewrite Hbad in Hstep.
  pose proof (la_drive_ok decode fs self (length good)
                (load_annotations key max)) as (_ & _ & Hheld).
  rewrite Hrun in Hheld. cbn [run_end run_trace run_state la_held] in Hheld.
  pose proof (la_next_step_ok decode fs self st) as Hok.
  rewrite Hstep in Hok.
  destruct Hok as (_ & _ & _ & leak & Hleak & Hlen & Hnone).
  destruct leak as [|path [|path' leak]]; [|clear Hnone|simpl in Hlen; lia].
  { specialize (Hnone eq_refl). congruence. }
  exists (evs ++ evs'), path.
  replace fuel with (length good + S (fuel - length good - 1))%nat by lia.
  rewrite (la_drive_add _ _ _ _ _ _ _ _ _ Hrun). cbn [la_drive].
  rewrite Hstep. cbn [run_trace run_yielded run_end run_state].
  rewrite app_nil_r. split; [reflexivity|]. split.
  - rewrite read_lines_app, Hread, Hread'. reflexivity.
  - rewrite opened_app, closed_app. simpl in Hheld.
    rewrite Hheld, <- !app_assoc. f_equal. exact Hleak.
Qed.

Lemma load_annotations_decode_failure_witness :
  exists evs path,
    la_drive sample_decode
      (<["data/coco_val_localized_narratives.jsonl" := File ["one"; ""; "three"]]> ∅)
      sample_loader 3 (load_annotations "coco_val" 5) =
      mkRun evs (decoded sample_decode ["one"]) (Some (Some DecodeError))
        LA_done /\
    read_lines evs = ["one"] ++ [""] /\
    opened evs = closed evs ++ [path].
Proof.
  apply (load_annotations_decode_failure sample_decode
           (<["data/coco_val_localized_narratives.jsonl" :=
                File ["one"; ""; "three"]]> ∅)
           sample_loader "coco_val" ["coco_val_localized_narratives.jsonl"]
           ["one"] ["three"] "" DecodeError 5 3).
  - vm_compute. reflexivity.
  - repeat constructor; vm_compute; discriminate.
  - vm_compute. reflexivity.
  - repeat constructor. eexists. reflexivity.
  - reflexivity.
  - right. simpl. lia.
  - simpl. lia.
Defined.

(** ** The generator [_find_files] driven to its end *)

Section FindFilesFacts.
Variable fs : gmap string node.
Variable self : DataLoader.

Lemma ff_drive_iter (names : list string) :
  forall fuel : nat,
    (length names < fuel)%nat ->
    ff_drive fs self fuel (FF (EF_iter names)) =
      ((fun filename =>
          EvExists (_local_file self filename)
            (Os.path_exists fs (_local_file self filename))) <$> names,
       List.filter (Os.path_exists fs) (_local_file self <$> names),
       Some None).
Proof.
  induction names as [|filename rest IH]; intros [|fuel] Hfuel;
    simpl in Hfuel; try lia.
  - reflexivity.
  - cbn [ff_drive ff_next ef_rest ff_scan fmap list_fmap List.filter].
    destruct (Os.path_exists fs (_local_file self filename)) eqn:Hexists.
    + rewrite IH by lia. reflexivity.
    + specialize (IH (S fuel) ltac:(lia)).
      cbn [ff_drive ff_next ef_rest] in IH.
      destruct (ff_scan fs self rest) as [[evs [path| |e]] st']; simpl in *.
      * destruct (ff_drive fs self fuel st') as [[evs' paths] fin].
        injection IH as <- <- <-. reflexivity.
      * injection IH as <- <-. reflexivity.
      * discriminate.
Qed.

End FindFilesFacts.

(** X11: driven to its end for a known key, [_find_files] checks the
    existence of every expected file once, in the order of the registry,
    does nothing else, raises nothing for the files that are absent and
    yields the local paths of those that exist, in that order. *)
Theorem find_files_yields_present (fs : gmap string node) (self : DataLoader)
    (key : string) (names : list string) (fuel : nat) :
  _ANNOTATION_FILES !! key = Some names ->
  (length names < fuel)%nat ->
  ff_drive fs self fuel (_find_files self key) =
    ((fun filename =>
        EvExists (_local_file self filename)
          (Os.path_exists fs (_local_file self filename))) <$> names,
     List.filter (Os.path_exists fs) (_local_file self <$> names),
     Some None).
Proof.
  intros Hkey Hfuel. rewrite <- (ff_drive_iter fs self names fuel Hfuel).
  destruct fuel as [|fuel]; [reflexivity|].
  cbn [ff_drive ff_next _find_files _expected_files ef_rest].
  rewrite Hkey. reflexivity.
Qed.

Lemma find_files_yields_present_witness :
  ff_drive sample_fs sample_loader 5 (_find_files sample_loader "coco_train") =
    ((fun filename =>
        EvExists (_local_file sample_loader filename)
          (Os.path_exists sample_fs (_local_file sample_loader filename)))
       <$> sample_names,
     List.filter (Os.path_exists sample_fs)
       (_local_file sample_loader <$> sample_names),
     Some None).
Proof.
  apply (find_files_yields_present sample_fs sample_loader "coco_train"
           sample_names 5).
  - vm_compute. reflexivity.
  - simpl. lia.
Defined.

(** ** Local paths of the registry's files *)

Lemma path_join_inj (dir name1 name2 : string) :
  String.prefix "/" name1 = false -> String.prefix "/" name2 = false ->
  Os.path_join dir name1 = Os.path_join dir name2 -> name1 = name2.
Proof.
  unfold Os.path_join. intros -> ->.
  destruct (String.eqb dir "" || Os.endswith_char "/" dir)%bool.
  - apply (inj (String.app dir)).
  - intros Heq. apply (inj (String.app dir)) in Heq.
    apply (inj (String.app "/")) in Heq. exact Heq.
Qed.

Lemma path_join_longer (dir name : string) :
  relative_name name = true -> Os.path_join dir name <> dir.
Proof.
  unfold relative_name, Os.path_join.
  intros [Hrel Hne]%andb_prop. apply negb_true_iff in Hrel, Hne.
  rewrite Hrel. apply String.eqb_neq in Hne.
  assert (Hlen : String.length name <> O) by (destruct name; [congruence|discriminate]).
  destruct (String.eqb dir "" || Os.endswith_char "/" dir)%bool;
    intros Heq; apply (f_equal String.length) in Heq;
    rewrite !ReFacts.length_append in Heq; lia.
Qed.

Lemma registry_names_relative (key : string) (names : list string)
    (filename : string) :
  _ANNOTATION_FILES !! key = Some names -> filename ∈ names ->
  relative_name filename = true.
Proof.
  intros Hkey%annotation_files_lookup Hname.
  assert (Hall : Forall (fun item : string * list string =>
                           Forall (fun f => relative_name f = true) item.2)
                   annotation_files_items).
  { apply (bool_decide_unpack _). vm_compute. reflexivity. }
  rewrite Forall_forall in Hall. specialize (Hall _ Hkey).
  rewrite Forall_forall in Hall. apply Hall. exact Hname.
Qed.

Lemma registry_names_nodup (key : string) (names : list string) :
  _ANNOTATION_FILES !! key = Some names -> NoDup names.
Proof.
  intros Hkey%annotation_files_lookup.
  assert (Hall : Forall (fun item : string * list string => NoDup item.2)
                   annotation_files_items).
  { apply (bool_decide_unpack _). vm_compute. reflexivity. }
  rewrite Forall_forall in Hall. exact (Hall _ Hkey).
Qed.

Lemma registry_files_disjoint (key1 key2 : string) (names1 names2 : list string)
    (filename : string) :
  _ANNOTATION_FILES !! key1 = Some names1 ->
  _ANNOTATION_FILES !! key2 = Some names2 ->
  filename ∈ names1 -> filename ∈ names2 -> key1 = key2.
Proof.
  intros Hkey1%annotation_files_lookup Hkey2%annotation_files_lookup H1 H2.
  assert (Hall : Forall (fun item1 : string * list string =>
                   Forall (fun item2 : string * list string =>
                     Forall (fun f => f ∈ item2.2 -> item1.1 = item2.1) item1.2)
                     annotation_files_items)
                   annotation_files_items).
  { apply (bool_decide_unpack _). vm_compute. reflexivity. }
  rewrite Forall_forall in Hall. specialize (Hall _ Hkey1).
  rewrite Forall_forall in Hall. specialize (Hall _ Hkey2).
  rewrite Forall_forall in Hall. exact (Hall _ H1 H2).
Qed.

Lemma local_files_nodup (self : DataLoader) (key : string)
    (names : list string) :
  _ANNOTATION_FILES !! key = Some names ->
  NoDup (_local_file self <$> names).
Proof.
  intros Hkey. pose proof (registry_names_nodup key names Hkey) as Hnodup.
  assert (Hrel : forall f, f ∈ names -> relative_name f = true).
  { intros f. apply (registry_names_relative key names f Hkey). }
  clear Hkey. induction Hnodup as [|f rest Hnotin Hnodup IH]; [constructor|].
  simpl. constructor.
  - intros (g & Heq & Hg)%list_elem_of_fmap. apply Hnotin.
    assert (f = g) as ->; [|exact Hg].
    apply (path_join_inj (_local_root_dir self)); [| |exact Heq].
    + specialize (Hrel f ltac:(left)). unfold relative_name in Hrel.
      apply andb_prop in Hrel as [Hrel _]. apply negb_true_iff, Hrel.
    + specialize (Hrel g ltac:(right; exact Hg)). unfold relative_name in Hrel.
      apply andb_prop in Hrel as [Hrel _]. apply negb_true_iff, Hrel.
  - apply IH. intros g Hg. apply Hrel. right. exact Hg.
Qed.

(** X12: in any directory, two files of the registry have the same local
    path only if they are the same file of the same key, and no local
    path is the directory itself: the files of all the splits can live
    side by side in one directory. *)
Theorem local_paths_distinct (self : DataLoader) (key1 key2 : string)
    (names1 names2 : list string) (filename1 filename2 : string) :
  _ANNOTATION_FILES !! key1 = Some names1 ->
  _ANNOTATION_FILES !! key2 = Some names2 ->
  filename1 ∈ names1 -> filename2 ∈ names2 ->
  _local_file self filename1 <> _local_root_dir self /\
  (_local_file self filename1 = _local_file self filename2 ->
   key1 = key2 /\ filename1 = filename2).
Proof.
  intros Hkey1 Hkey2 H1 H2.
  pose proof (registry_names_relative _ _ _ Hkey1 H1) as Hrel1.
  pose proof (registry_names_relative _ _ _ Hkey2 H2) as Hrel2.
  split; [apply path_join_longer; exact Hrel1|].
  intros Heq. assert (filename1 = filename2) as ->.
  { apply (path_join_inj (_local_root_dir self)); [| |exact Heq].
    - apply andb_prop in Hrel1 as [Hrel1 _]. apply negb_true_iff, Hrel1.
    - apply andb_prop in Hrel2 as [Hrel2 _]. apply negb_true_iff, Hrel2. }
  split; [|reflexivity].
  exact (registry_files_disjoint _ _ _ _ _ Hkey1 Hkey2 H1 H2).
Qed.

Lemma local_paths_distinct_witness :
  _local_file sample_loader "coco_val_localized_narratives.jsonl"
  <> _local_root_dir sample_loader /\
  (_local_file sample_loader "coco_val_localized_narratives.jsonl"
   = _local_file sample_loader "flickr30k_val_localized_narratives.jsonl" ->
   "coco_val" = "flickr30k_val" /\
   "coco_val_localized_narratives.jsonl"
   = "flickr30k_val_localized_narratives.jsonl").
Proof.
  apply (local_paths_distinct sample_loader "coco_val" "flickr30k_val"
           ["coco_val_localized_narratives.jsonl"]
           ["flickr30k_val_localized_narratives.jsonl"]).
  - vm_compute. reflexivity.
  - vm_compute. reflexivity.
  - left.
  - left.
Defined.

(** ** Downloading: what is kept, what is fetched, how it fails *)

Section DownloadMore.
Variable remote : gmap string (list string).
Variable self : DataLoader.

Lemma downloads_app (evs1 evs2 : list event) :
  downloads (evs1 ++ evs2) = downloads evs1 ++ downloads evs2.
Proof. apply omap_app. Qed.

Lemma path_exists_false (fs : gmap string node) (path : string) :
  Os.path_exists fs path = false <-> fs !! path = None.
Proof. unfold Os.path_exists. destruct (fs !! path); split; congruence. Qed.

Lemma download_one_file_keeps (fs fs' : gmap string node) (filename : string)
    (evs : list event) (res : result unit) :
  _download_one_file remote self fs filename = (evs, res, fs') ->
  forall path, Os.path_exists fs path = true -> fs' !! path = fs !! path.
Proof.
  unfold _download_one_file, Os.wget_download.
  destruct (Os.path_exists fs (_local_file self filename)) eqn:Hexists; simpl.
  - intros [= <- <- <-]. auto.
  - destruct (remote !! _); intros [= <- <- <-]; [|auto].
    intros path Hpath. apply lookup_insert_ne. congruence.
Qed.

Lemma download_files_keeps (names : list string) :
  forall (fs fs' : gmap string node) (evs : list event) (res : result unit),
    download_files remote self fs names = (evs, res, fs') ->
    forall path, Os.path_exists fs path = true -> fs' !! path = fs !! path.
Proof.
  induction names as [|filename rest IH]; intros fs fs' evs res; simpl.
  - intros [= <- <- <-]. auto.
  - destruct (_download_one_file remote self fs filename)
      as [[evs1 [u1|e]] fs1] eqn:Hone.
    + destruct (download_files remote self fs1 rest)
        as [[evs2 res2] fs2] eqn:Hrest. simpl. intros [= <- <- <-].
      intros path Hpath.
      pose proof (download_one_file_keeps _ _ _ _ _ Hone path Hpath) as Hkeep.
      rewrite <- Hkeep. apply (IH _ _ _ _ Hrest).
      unfold Os.path_exists. rewrite Hkeep. exact Hpath.
    + intros [= <- <- <-]. apply (download_one_file_keeps _ _ _ _ _ Hone).
Qed.

Lemma makedirs_other (fs fs' : gmap string node) (dir path : string) :
  Os.makedirs fs dir = Ok fs' -> path <> dir -> fs' !! path = fs !! path.
Proof.
  unfold Os.makedirs. destruct (String.eqb dir ""); [discriminate|].
  destruct (fs !! dir) as [[lines|]|]; [discriminate| |]; intros [= <-] Hne.
  - reflexivity.
  - apply lookup_insert_ne. congruence.
Qed.

Lemma makedirs_keeps (fs fs' : gmap string node) (dir path : string) :
  Os.makedirs fs dir = Ok fs' ->
  Os.path_exists fs path = true -> fs' !! path = fs !! path.
Proof.
  unfold Os.makedirs. destruct (String.eqb dir ""); [discriminate|].
  destruct (fs !! dir) as [[lines|]|] eqn:Hdir; [discriminate| |];
    intros [= <-] Hpath.
  - reflexivity.
  - apply lookup_insert_ne. intros ->. apply path_exists_true in Hpath.
    rewrite Hdir in Hpath. destruct Hpath as [? [=]].
Qed.

Lemma downloaded_node_ext (fs1 fs2 : gmap string node) (filename : string) :
  fs1 !! _local_file self filename = fs2 !! _local_file self filename ->
  downloaded_node remote fs1 self filename
  = downloaded_node remote fs2 self filename.
Proof. unfold downloaded_node. intros ->. reflexivity. Qed.

Lemma missing_files_ext (fs1 fs2 : gmap string node) (names : list string) :
  (forall f, f ∈ names ->
             fs1 !! _local_file self f = fs2 !! _local_file self f) ->
  missing_files fs1 self names = missing_files fs2 self names.
Proof.
  intros Hext. unfold missing_files. apply List.filter_ext_in.
  intros f Hf%list_elem_of_In. unfold Os.path_exists.
  rewrite (Hext f Hf). reflexivity.
Qed.

(** The loop, when it succeeds on names with distinct local paths. *)
Lemma download_files_success (names : list string) :
  forall (fs fs' : gmap string node) (evs : list event) (u : unit),
    download_files remote self fs names = (evs, Ok u, fs') ->
    NoDup (_local_file self <$> names) ->
    (forall f, f ∈ names ->
               fs' !! _local_file self f = downloaded_node remote fs self f /\
               is_Some (downloaded_node remote fs self f)) /\
    downloads evs = annotation_url <$> missing_files fs self names /\
    (forall path, path ∉ _local_file self <$> names -> fs' !! path = fs !! path).
Proof.
  induction names as [|filename rest IH]; intros fs fs' evs u; simpl.
  - intros [= <- <- <-] _. split; [|auto]. intros f Hf.
    apply elem_of_nil in Hf. contradiction.
  - intros Hrun [Hnotin Hnodup]%NoDup_cons. revert Hrun.
    unfold _download_one_file, Os.wget_download, missing_files.
    cbn [List.filter].
    destruct (Os.path_exists fs (_local_file self filename)) eqn:Hexists;
      cbn [negb].
    + destruct (download_files remote self fs rest)
        as [[evs2 [u2|e]] fs2] eqn:Hrest; simpl; [|discriminate].
      intros [= <- <- <-].
      destruct (IH _ _ _ _ Hrest Hnodup) as (Hnodes & Hdown & Hother).
      split; [|split].
      * intros f [->|Hf]%elem_of_cons; [|auto].
        rewrite (Hother _ Hnotin). unfold downloaded_node.
        apply path_exists_true in Hexists as [present Hpresent].
        rewrite Hpresent. eauto.
      * exact Hdown.
      * intros path Hpath. apply Hother. intros Hin. apply Hpath.
        right. exact Hin.
    + fold (annotation_url filename).
      destruct (remote !! annotation_url filename) as [content|] eqn:Hremote;
        [|discriminate].
      destruct (download_files remote self
                  (<[_local_file self filename := File content]> fs) rest)
        as [[evs2 [u2|e]] fs2] eqn:Hrest; simpl; [|discriminate].
      intros [= <- <- <-].
      destruct (IH _ _ _ _ Hrest Hnodup) as (Hnodes & Hdown & Hother).
      assert (Hsame : forall f, f ∈ rest ->
                <[_local_file self filename := File content]> fs
                  !! _local_file self f = fs !! _local_file self f).
      { intros f Hf. apply lookup_insert_ne. intros Heq. apply Hnotin.
        rewrite Heq. apply list_elem_of_fmap. eauto. }
      split; [|split].
      * intros f [->|Hf]%elem_of_cons.
        -- rewrite (Hother _ Hnotin), lookup_insert_eq. unfold downloaded_node.
           apply path_exists_false in Hexists. rewrite Hexists, Hremote.
           simpl. eauto.
        -- rewrite <- (downloaded_node_ext _ _ f (Hsame f Hf)). auto.
      * simpl. rewrite Hdown. f_equal. f_equal.
        apply missing_files_ext. exact Hsame.
      * intros path Hpath. rewrite Hother.
        -- apply lookup_insert_ne. intros Heq. apply Hpath.
           rewrite <- Heq. left.
        -- intros Hin. apply Hpath. right. exact Hin.
Qed.

(** The loop, when it raises: a download failed, and it is the last
    thing that happened. *)
Lemma download_files_raise (names : list string) :
  forall (fs fs' : gmap string node) (evs : list event) (e : exn),
    download_files remote self fs names = (evs, Raise e, fs') ->
    e = DownloadError /\
    exists done filename todo evs0,
      names = done ++ filename :: todo /\
      remote !! annotation_url filename = None /\
      evs = evs0 ++ [EvDownload (annotation_url filename)
                       (_local_file self filename)] /\
      checked evs = _local_file self <$> (done ++ [filename]).
Proof.
  induction names as [|filename rest IH]; intros fs fs' evs e; simpl;
    [discriminate|].
  unfold _download_one_file, Os.wget_download.
  fold (annotation_url filename).
  destruct (Os.path_exists fs (_local_file self filename)); cbn [negb].
  - destruct (download_files remote self fs rest)
      as [[evs2 [u2|e2]] fs2] eqn:Hrest; simpl; [discriminate|].
    intros [= <- <- <-].
    destruct (IH _ _ _ _ Hrest)
      as (-> & done & f & todo & evs0 & -> & Hremote & -> & Hchecked).
    split; [reflexivity|].
    exists (filename :: done), f, todo,
      ([EvExists (_local_file self filename) true;
        EvPrint ("Already downloaded: " +:+ filename)] ++ evs0).
    split; [reflexivity|]. split; [exact Hremote|].
    split; [rewrite <- app_assoc; reflexivity|].
    simpl. simpl in Hchecked. rewrite Hchecked. reflexivity.
  - destruct (remote !! annotation_url filename) as [content|] eqn:Hremote.
    + destruct (download_files remote self _ rest)
        as [[evs2 [u2|e2]] fs2] eqn:Hrest; simpl; [discriminate|].
      intros [= <- <- <-].
      destruct (IH _ _ _ _ Hrest)
        as (-> & done & f & todo & evs0 & -> & Hremote' & -> & Hchecked).
      split; [reflexivity|].
      exists (filename :: done), f, todo,
        ([EvExists (_local_file self filename) false;
          EvPrint ("Downloading: " +:+ filename);
          EvDownload (annotation_url filename) (_local_file self filename);
          EvPrint ""] ++ evs0).
      split; [reflexivity|]. split; [exact Hremote'|].
      split; [rewrite <- app_assoc; reflexivity|].
      simpl. simpl in Hchecked. rewrite Hchecked. reflexivity.
    + intros [= <- <- <-]. split; [reflexivity|].
      exists [], filename, rest,
        [EvExists (_local_file self filename) false;
         EvPrint ("Downloading: " +:+ filename)].
      auto.
Qed.

End DownloadMore.

(** X13: whatever its outcome, [download_annotations] leaves every path
    that existed before as it was: nothing present is overwritten,
    refreshed or removed. *)
Theorem download_annotations_keeps_existing
    (remote : gmap string (list string)) (self : DataLoader)
    (fs fs' : gmap string node) (key : string) (evs : list event)
    (res : result unit) (path : string) :
  download_annotations remote self fs key = (evs, res, fs') ->
  Os.path_exists fs path = true ->
  fs' !! path = fs !! path.
Proof.
  unfold download_annotations. intros Hrun Hpath.
  destruct (Os.makedirs fs (_local_root_dir self)) as [fs1|e] eqn:Hmk.
  - pose proof (makedirs_keeps _ _ _ _ Hmk Hpath) as Hkeep.
    destruct (ef_rest (_expected_files key)) as [names|e].
    + destruct (download_files remote self fs1 names)
        as [[evs1 res1] fs2] eqn:Hloop. simpl in Hrun.
      injection Hrun as <- <- <-. rewrite <- Hkeep.
      apply (download_files_keeps _ _ _ _ _ _ _ Hloop).
      unfold Os.path_exists. rewrite Hkeep. exact Hpath.
    + simpl in Hrun. injection Hrun as <- <- <-. exact Hkeep.
  - injection Hrun as <- <- <-. reflexivity.
Qed.

Lemma download_annotations_keeps_existing_witness :
  snd (download_annotations ∅ sample_loader sample_fs "coco_train")
    !! "data/coco_train_localized_narratives-00001-of-00004.jsonl"
  = sample_fs !! "data/coco_train_localized_narratives-00001-of-00004.jsonl".
Proof.
  apply (download_annotations_keeps_existing ∅ sample_loader sample_fs
           (snd (download_annotations ∅ sample_loader sample_fs "coco_train"))
           "coco_train"
           (fst (fst (download_annotations ∅ sample_loader sample_fs
                        "coco_train")))
           (snd (fst (download_annotations ∅ sample_loader sample_fs
                        "coco_train")))).
  - vm_compute. reflexivity.
  - vm_compute. reflexivity.
Defined.

(** What a successful call leaves behind. *)
Lemma download_annotations_result
    (remote : gmap string (list string)) (self : DataLoader)
    (fs fs' : gmap string node) (key : string) (names : list string)
    (evs : list event) :
  _ANNOTATION_FILES !! key = Some names ->
  download_annotations remote self fs key = (evs, Ok tt, fs') ->
  fs' !! _local_root_dir self = Some Dir /\
  (forall filename, filename ∈ names ->
     fs' !! _local_file self filename
     = downloaded_node remote fs self filename /\
     is_Some (fs' !! _local_file self filename)) /\
  downloads evs = annotation_url <$> missing_files fs self names.
Proof.
  intros Hkey. unfold download_annotations.
  destruct (Os.makedirs fs (_local_root_dir self)) as [fs1|e] eqn:Hmk;
    [|discriminate].
  simpl. rewrite Hkey.
  destruct (download_files remote self fs1 names)
    as [[evs1 [[]|e]] fs2] eqn:Hloop; simpl; [|discriminate].
  intros [= <- <-].
  destruct (download_files_success remote self names _ _ _ _ Hloop
              (local_files_nodup self key names Hkey))
    as (Hnodes & Hdown & Hother).
  assert (Hfresh : forall f, f ∈ names ->
            fs1 !! _local_file self f = fs !! _local_file self f).
  { intros f Hf. apply (makedirs_other _ _ _ _ Hmk).
    apply path_join_longer.
    exact (registry_names_relative key names f Hkey Hf). }
  split; [|split].
  - rewrite Hother; [exact (makedirs_ok _ _ _ Hmk)|].
    intros (f & Heq & Hf)%list_elem_of_fmap.
    apply (path_join_longer (_local_root_dir self) f);
      [exact (registry_names_relative key names f Hkey Hf)|].
    symmetry. exact Heq.
  - intros f Hf. destruct (Hnodes f Hf) as [Hnode Hsome].
    rewrite (downloaded_node_ext remote self _ _ f (Hfresh f Hf)) in Hnode, Hsome.
    rewrite Hnode. auto.
  - simpl. rewrite Hdown. f_equal. apply missing_files_ext. exact Hfresh.
Qed.

(** X14: when [download_annotations] succeeds for a known key, the local
    directory exists, every expected file is present, a file that was
    already there is as it was and a file that was missing holds what the
    server holds; there was exactly one download for each missing file,
    from the annotations root, in the order of the registry. *)
Theorem download_annotations_success
    (remote : gmap string (list string)) (self : DataLoader)
    (fs fs' : gmap string node) (key : string) (names : list string)
    (evs : list event) :
  _ANNOTATION_FILES !! key = Some names ->
  download_annotations remote self fs key = (evs, Ok tt, fs') ->
  fs' !! _local_root_dir self = Some Dir /\
  (forall filename, filename ∈ names ->
     fs' !! _local_file self filename
     = downloaded_node remote fs self filename /\
     is_Some (fs' !! _local_file self filename)) /\
  downloads evs = annotation_url <$> missing_files fs self names.
Proof. apply download_annotations_result. Qed.

Lemma download_annotations_success_witness :
  sample_downloaded !! _local_root_dir sample_loader = Some Dir /\
  (forall filename, filename ∈ ["coco_val_localized_narratives.jsonl"] ->
     sample_downloaded !! _local_file sample_loader filename
     = downloaded_node sample_remote ∅ sample_loader filename /\
     is_Some (sample_downloaded !! _local_file sample_loader filename)) /\
  downloads
    [EvMakedirs "data";
     EvExists "data/coco_val_localized_narratives.jsonl" false;
     EvPrint "Downloading: coco_val_localized_narratives.jsonl";
     EvDownload (annotation_url "coco_val_localized_narratives.jsonl")
       "data/coco_val_localized_narratives.jsonl";
     EvPrint ""]
  = annotation_url
      <$> missing_files ∅ sample_loader ["coco_val_localized_narratives.jsonl"].
Proof.
  apply (download_annotations_success sample_remote sample_loader ∅
           sample_downloaded "coco_val").
  - vm_compute. reflexivity.
  - vm_compute. reflexivity.
Defined.

(** X15: [download_annotations] fails in three ways only: the directory
    cannot be created, the key is unknown, or a download fails.  A failed
    download is the last event of the call: the files listed after it
    are neither looked for nor fetched. *)
Theorem download_annotations_failure
    (remote : gmap string (list string)) (self : DataLoader)
    (fs fs' : gmap string node) (key : string) (evs : list event) (e : exn) :
  download_annotations remote self fs key = (evs, Raise e, fs') ->
  (Os.makedirs fs (_local_root_dir self) = Raise e /\
   evs = [EvMakedirs (_local_root_dir self)] /\ fs' = fs)
  \/ (_ANNOTATION_FILES !! key = None /\ e = unknown_key_error key /\
      evs = [EvMakedirs (_local_root_dir self)])
  \/ (e = DownloadError /\
      exists names done filename todo evs0,
        _ANNOTATION_FILES !! key = Some names /\
        names = done ++ filename :: todo /\
        remote !! annotation_url filename = None /\
        evs = evs0 ++ [EvDownload (annotation_url filename)
                         (_local_file self filename)] /\
        checked evs = _local_file self <$> (done ++ [filename])).
Proof.
  unfold download_annotations.
  destruct (Os.makedirs fs (_local_root_dir self)) as [fs1|e1] eqn:Hmk.
  - simpl. destruct (_ANNOTATION_FILES !! key) as [names|] eqn:Hkey.
    + destruct (download_files remote self fs1 names)
        as [[evs1 [u|e1]] fs2] eqn:Hloop; simpl; [discriminate|].
      intros [= <- <- <-]. right. right.
      destruct (download_files_raise remote self names _ _ _ _ Hloop)
        as (-> & done & f & todo & evs0 & -> & Hremote & -> & Hchecked).
      split; [reflexivity|].
      exists (done ++ f :: todo), done, f, todo,
        (EvMakedirs (_local_root_dir self) :: evs0).
      repeat split; try assumption; reflexivity.
    + intros [= <- <- <-]. right. left. auto.
  - intros [= <- <- <-]. left. auto.
Qed.

Lemma download_annotations_failure_witness :
  (Os.makedirs ∅ (_local_root_dir sample_loader) = Raise DownloadError /\
   [EvMakedirs "data";
    EvExists "data/coco_val_localized_narratives.jsonl" false;
    EvPrint "Downloading: coco_val_localized_narratives.jsonl";
    EvDownload (annotation_url "coco_val_localized_narratives.jsonl")
      "data/coco_val_localized_narratives.jsonl"]
   = [EvMakedirs (_local_root_dir sample_loader)] /\
   ({[ "data" := Dir ]} : gmap string node) = ∅)
  \/ (_ANNOTATION_FILES !! "coco_val" = None /\
      DownloadError = unknown_key_error "coco_val" /\
      [EvMakedirs "data";
       EvExists "data/coco_val_localized_narratives.jsonl" false;
       EvPrint "Downloading: coco_val_localized_narratives.jsonl";
       EvDownload (annotation_url "coco_val_localized_narratives.jsonl")
         "data/coco_val_localized_narratives.jsonl"]
      = [EvMakedirs (_local_root_dir sample_loader)])
  \/ (DownloadError = DownloadError /\
      exists names done filename todo evs0,
        _ANNOTATION_FILES !! "coco_val" = Some names /\
        names = done ++ filename :: todo /\
        (∅ : gmap string (list string)) !! annotation_url filename = None /\
        [EvMakedirs "data";
         EvExists "data/coco_val_localized_narratives.jsonl" false;
         EvPrint "Downloading: coco_val_localized_narratives.jsonl";
         EvDownload (annotation_url "coco_val_localized_narratives.jsonl")
           "data/coco_val_localized_narratives.jsonl"]
        = evs0 ++ [EvDownload (annotation_url filename)
                     (_local_file sample_loader filename)] /\
        checked
          [EvMakedirs "data";
           EvExists "data/coco_val_localized_narratives.jsonl" false;
           EvPrint "Downloading: coco_val_localized_narratives.jsonl";
           EvDownload (annotation_url "coco_val_localized_narratives.jsonl")
             "data/coco_val_localized_narratives.jsonl"]
        = _local_file sample_loader <$> (done ++ [filename])).
Proof.
  apply (download_annotations_failure ∅ sample_loader ∅ {[ "data" := Dir ]}
           "coco_val").
  vm_compute. reflexivity.
Defined.

(** X16: downloading and then loading.  When [download_annotations] has
    succeeded in a directory that held none of the expected files, and
    the lines the server holds decode, a run of [load_annotations] on
    what the download left yields the records of the server's lines,
    file after file in the order of the registry, up to the limit when
    it is positive, and ends normally. *)
Theorem download_then_load
    (decode : string -> result LocalizedNarrative)
    (remote : gmap string (list string)) (self : DataLoader)
    (fs fs' : gmap string node) (key : string) (names : list string)
    (evs : list event) (max : Z) (fuel : nat) :
  _ANNOTATION_FILES !! key = Some names ->
  (forall filename, filename ∈ names -> fs !! _local_file self filename = None) ->
  download_annotations remote self fs key = (evs, Ok tt, fs') ->
  Forall (decodable decode) (served remote names) ->
  (length (served remote names) < fuel)%nat ->
  exists evs',
    la_drive decode fs' self fuel (load_annotations key max) =
      mkRun evs'
        (decoded decode
           (if 0 <? max then take (Z.to_nat max) (served remote names)
            else served remote names))
        (Some None) LA_done.
Proof.
  intros Hkey Habsent Hrun Hdec Hfuel.
  destruct (download_annotations_result remote self fs fs' key names
              evs Hkey Hrun) as (_ & Hnodes & _).
  assert (Hfile : forall f, f ∈ names ->
            fs' !! _local_file self f
            = Some (File (default [] (remote !! annotation_url f)))).
  { intros f Hf. destruct (Hnodes f Hf) as [Hnode Hsome].
    rewrite Hnode in Hsome |- *. unfold downloaded_node in *.
    rewrite (Habsent f Hf) in *.
    destruct (remote !! annotation_url f); [reflexivity|].
    destruct Hsome as [? [=]]. }
  assert (Hlines : present_lines fs' self names = served remote names).
  { unfold present_lines, served. f_equal. apply Forall_fmap_ext_1.
    apply Forall_forall. intros f Hf. unfold file_lines.
    rewrite (Hfile f Hf). reflexivity. }
  assert (Hreg : regular_files fs' self names).
  { apply Forall_forall. intros f Hf. rewrite (Hfile f Hf). discriminate. }
  pose proof (la_pending_start fs' self key names max Hkey) as Hpending.
  destruct (la_drive_complete decode fs' self (load_annotations key max) fuel)
    as (evs' & Hdrive & _).
  - exists names. auto.
  - rewrite Hpending, Hlines. simpl. destruct (0 <? max); simpl;
      [apply Forall_take|]; exact Hdec.
  - pose proof (within_length_le (allowance (load_annotations key max))
                  (la_pending fs' self (load_annotations key max))) as Hle.
    rewrite Hpending, Hlines in Hle |- *. lia.
  - exists evs'. rewrite Hdrive, Hpending, Hlines. simpl.
    destruct (0 <? max); reflexivity.
Qed.

Lemma download_then_load_witness :
  exists evs',
    la_drive sample_decode sample_downloaded sample_loader 3
      (load_annotations "coco_val" default_max_num_annotations) =
      mkRun evs'
        (decoded sample_decode
           (if 0 <? default_max_num_annotations
            then take (Z.to_nat default_max_num_annotations)
                   (served sample_remote ["coco_val_localized_narratives.jsonl"])
            else served sample_remote ["coco_val_localized_narratives.jsonl"]))
        (Some None) LA_done.
Proof.
  apply (download_then_load sample_decode sample_remote sample_loader ∅
           sample_downloaded "coco_val" ["coco_val_localized_narratives.jsonl"]
           [EvMakedirs "data";
            EvExists "data/coco_val_localized_narratives.jsonl" false;
            EvPrint "Downloading: coco_val_localized_narratives.jsonl";
            EvDownload (annotation_url "coco_val_localized_narratives.jsonl")
              "data/coco_val_localized_narratives.jsonl";
            EvPrint ""]
           default_max_num_annotations 3).
  - vm_compute. reflexivity.
  - intros filename Hin. apply lookup_empty.
  - vm_compute. reflexivity.
  - vm_compute. repeat (constructor; [eexists; reflexivity|]). constructor.
  - vm_compute. lia.
Defined.

(** ** What [download_annotations] never does *)

Section DownloadEvents.
Variable remote : gmap string (list string).
Variable self : DataLoader.

Lemma download_files_events (names : list string) :
  forall fs : gmap string node,
    Forall (fun ev => fetch_event ev = true)
      (download_files remote self fs names).1.1.
Proof.
  induction names as [|filename rest IH]; intros fs; simpl; [constructor|].
  unfold _download_one_file, Os.wget_download.
  destruct (Os.path_exists fs (_local_file self filename)); cbn [negb].
  - specialize (IH fs).
    destruct (download_files remote self fs rest) as [[evs res] fs'].
    simpl in *. repeat constructor. exact IH.
  - destruct (remote !! _) as [content|].
    + specialize (IH (<[_local_file self filename := File content]> fs)).
      destruct (download_files remote self _ rest) as [[evs res] fs'].
      simpl in *. repeat constructor. exact IH.
    + simpl. repeat constructor.
Qed.

Lemma download_annotations_events (fs : gmap string node) (key : string) :
  Forall (fun ev => fetch_event ev = true)
    (download_annotations remote self fs key).1.1.
Proof.
  unfold download_annotations.
  destruct (Os.makedirs fs (_local_root_dir self)) as [fs1|e];
    [|repeat constructor].
  destruct (ef_rest (_expected_files key)) as [names|e];
    [|repeat constructor].
  pose proof (download_files_events names fs1) as Hloop.
  destruct (download_files remote self fs1 names) as [[evs res] fs'].
  simpl in *. constructor; [reflexivity|exact Hloop].
Qed.

Lemma fetch_events_touch_no_file (evs : list event) :
  Forall (fun ev => fetch_event ev = true) evs ->
  opened evs = [] /\ read_lines evs = [] /\ closed evs = [].
Proof.
  induction 1 as [|ev evs Hev _ (Hopened & Hread & Hclosed)]; [auto|].
  destruct ev; try discriminate; simpl; auto.
Qed.

End DownloadEvents.

(** X17: whatever the key, the server and the local directory,
    [download_annotations] only creates the directory, checks for files,
    downloads and prints: it never opens, reads or closes a local file,
    so the content of what is present is never looked at. *)
Theorem download_annotations_touches_no_file
    (remote : gmap string (list string)) (self : DataLoader)
    (fs : gmap string node) (key : string) :
  let evs := (download_annotations remote self fs key).1.1 in
  Forall (fun ev => fetch_event ev = true) evs /\
  opened evs = [] /\ read_lines evs = [] /\ closed evs = [].
Proof.
  intros evs. pose proof (download_annotations_events remote self fs key) as H.
  split; [exact H|]. apply fetch_events_touch_no_file. exact H.
Qed.

(** ** The demo script *)

(** X18: the demo ends in one of three ways.  When it completes, the
    local file of [flickr30k_test] starts with a line that decodes, that
    line is the only one read, and the file it was read from has been
    opened and not closed: [next] is called once, and the limit of 1 is
    only tested when the generator is resumed.  When the local file is
    empty, [next] raises [StopIteration]; nothing has been read and the
    file has been closed. *)
Theorem demo_outcome
    (str_utterance : TimedUtterance -> string)
    (str_point : TimedPoint -> string)
    (decode : string -> result LocalizedNarrative)
    (remote : gmap string (list string))
    (fs fs' : gmap string node) (evs : list event) (fin : script_end) :
  demo str_utterance str_point decode remote fs = (evs, fin, fs') ->
  let path := _local_file (mkDataLoader demo_local_dir)
                "flickr30k_test_localized_narratives.jsonl" in
  match fin with
  | Completed =>
      exists line rest narrative,
        fs' !! path = Some (File (line :: rest)) /\
        decode line = Ok narrative /\
        read_lines evs = [line] /\
        opened evs = [path] /\ closed evs = []
  | StopIterationRaised =>
      fs' !! path = Some (File []) /\
      read_lines evs = [] /\ opened evs = [path] /\ closed evs = [path]
  | Failed _ => True
  end.
Proof.
  intros Hrun path. unfold demo in Hrun.
  pose proof (download_annotations_events remote (mkDataLoader demo_local_dir)
                fs "flickr30k_test") as Hfetch.
  destruct (download_annotations remote (mkDataLoader demo_local_dir) fs
              "flickr30k_test") as [[evs0 [[]|e]] fs0] eqn:Hdownload;
    [|injection Hrun as <- <- <-; exact I].
  apply fetch_events_touch_no_file in Hfetch as (Hopened & Hread & Hclosed).
  simpl in Hopened, Hread, Hclosed.
  assert (Hpresent : is_Some (fs0 !! path)).
  { apply (download_annotations_result remote (mkDataLoader demo_local_dir)
             fs fs0 "flickr30k_test"
             ["flickr30k_test_localized_narratives.jsonl"] evs0);
      [reflexivity|exact Hdownload|left]. }
  change (la_next decode fs0 (mkDataLoader demo_local_dir)
            (load_annotations "flickr30k_test" 1))
    with (la_files decode fs0 (mkDataLoader demo_local_dir) 1 0
            ["flickr30k_test_localized_narratives.jsonl"]) in Hrun.
  cbn [la_files] in Hrun. fold path in Hrun.
  unfold Os.path_exists, Os.open_rb in Hrun.
  destruct (fs0 !! path) as [[[|line rest]|]|] eqn:Hpath; simpl in Hrun.
  - injection Hrun as <- <- <-.
    rewrite read_lines_app, opened_app, closed_app, Hopened, Hread, Hclosed.
    auto.
  - destruct (decode line) as [narrative|e] eqn:Hline;
      unfold after in Hrun; simpl in Hrun;
      [|injection Hrun as <- <- <-; exact I].
    destruct (__repr__ str_utterance str_point narrative) as [text|e];
      [|injection Hrun as <- <- <-; exact I].
    destruct (voice_recording_url narrative) as [url|e];
      injection Hrun as <- <- <-; [|exact I].
    exists line, rest, narrative.
    rewrite !read_lines_app, !opened_app, !closed_app, Hopened, Hread, Hclosed.
    auto.
  - injection Hrun as <- <- <-. exact I.
  - destruct Hpresent as [? [=]].
Qed.

Lemma demo_outcome_witness :
  exists line rest narrative,
    (demo utterance (fun _ => "point") demo_decode demo_remote ∅).2
      !! _local_file (mkDataLoader demo_local_dir)
           "flickr30k_test_localized_narratives.jsonl"
    = Some (File (line :: rest)) /\
    demo_decode line = Ok narrative /\
    read_lines (demo utterance (fun _ => "point") demo_decode demo_remote ∅).1.1
    = [line] /\
    opened (demo utterance (fun _ => "point") demo_decode demo_remote ∅).1.1
    = [_local_file (mkDataLoader demo_local_dir)
         "flickr30k_test_localized_narratives.jsonl"] /\
    closed (demo utterance (fun _ => "point") demo_decode demo_remote ∅).1.1
    = [].
Proof.
  apply (demo_outcome utterance (fun _ => "point") demo_decode demo_remote ∅
           (demo utterance (fun _ => "point") demo_decode demo_remote ∅).2
           (demo utterance (fun _ => "point") demo_decode demo_remote ∅).1.1
           Completed).
  vm_compute. reflexivity.
Defined.
